(** * cd_dbm/cd_access.c: access functions of the CD database

    A shallow embedding of [src/cd_dbm/cd_access.c].  The C functions are
    transcribed as state-passing Rocq functions over

    - byte buffers ([list ascii]) for [char] arrays, C strings and the object
      representation of the two record structures;
    - a three-valued result ([Done], [Undefined], [OutOfFuel]) for calls whose
      behaviour the C standard leaves undefined (a null pointer handed to
      [strlen], a write past the end of a buffer) and for the [do ... while]
      loop of [search_cdc_entry], which is run with fuel;
    - a small model of the ndbm interface the file is written against. *)

From Stdlib Require Import Ascii String DecimalString DecimalPos DecimalZ.
From Stdlib Require Import ZArith Bool Arith Lia List Permutation.
Import ListNotations.

Local Open Scope nat_scope.

(** ** Results of C computations *)

Inductive res (A : Type) : Type :=
| Done (a : A)
| Undefined
| OutOfFuel.

Arguments Done {A} a.
Arguments Undefined {A}.
Arguments OutOfFuel {A}.

Definition bind {A B : Type} (c : res A) (k : A -> res B) : res B :=
  match c with
  | Done a => k a
  | Undefined => Undefined
  | OutOfFuel => OutOfFuel
  end.

Notation "x <- c ;; k" := (bind c (fun x => k))
  (at level 61, c at next level, right associativity).

(** ** The C library functions used by cd_access.c *)

Module Libc.

Definition char : Type := ascii.

Definition NUL : char := Ascii.zero.

Definition is_nul (c : char) : bool := Ascii.eqb c NUL.

(** A [const char *]: [None] is the null pointer, [Some m] points at the
    bytes [m]; a terminating NUL is implied after the last byte of [m]. *)
Definition cptr : Type := option (list char).

(** The C string that starts at the first byte of [m]. *)
Fixpoint c_str (m : list char) : list char :=
  match m with
  | [] => []
  | c :: m' => if is_nul c then [] else c :: c_str m'
  end.

Definition strlen (p : cptr) : res nat :=
  match p with
  | None => Undefined
  | Some m => Done (length (c_str m))
  end.

(** [memset(&buf, '\0', n)] on a buffer of [n] bytes. *)
Definition memset_zero (n : nat) : list char := repeat NUL n.

(** [strcpy(dst, src)]: the string and its terminator overwrite the start of
    [dst]; writing past the end of [dst] is undefined. *)
Definition strcpy (dst : list char) (src : cptr) : res (list char) :=
  match src with
  | None => Undefined
  | Some m =>
      let s := c_str m ++ [NUL] in
      if length s <=? length dst then Done (s ++ skipn (length s) dst)
      else Undefined
  end.

(** [memcpy(dst, src, n)]. *)
Definition memcpy (dst src : list char) (n : nat) : res (list char) :=
  if (n <=? length dst) && (n <=? length src)
  then Done (firstn n src ++ skipn n dst)
  else Undefined.

(** The text printed for [%d]. *)
Definition itoa (z : Z) : list char :=
  list_ascii_of_string (NilZero.string_of_int (Z.to_int z)).

(** [sprintf(dst, "%s %d", s, d)]: the text and its terminator overwrite the
    start of [dst]; there is no bound on what is written. *)
Definition sprintf_s_d (dst : list char) (s : cptr) (d : Z) : res (list char) :=
  match s with
  | None => Undefined
  | Some m =>
      let text := c_str m ++ " "%char :: itoa d in
      if length text + 1 <=? length dst
      then Done (text ++ NUL :: skipn (length text + 1) dst)
      else Undefined
  end.

Fixpoint prefix_b (p s : list char) : bool :=
  match p, s with
  | [], _ => true
  | _ :: _, [] => false
  | a :: p', b :: s' => Ascii.eqb a b && prefix_b p' s'
  end.

Fixpoint find_sub (needle hay : list char) : option nat :=
  if prefix_b needle hay then Some 0
  else match hay with
       | [] => None
       | _ :: hay' => option_map S (find_sub needle hay')
       end.

(** [strstr(haystack, needle)]: the offset of the first occurrence, [None]
    for the null result. *)
Definition strstr (haystack needle : list char) : option nat :=
  find_sub (c_str needle) (c_str haystack).

End Libc.

Export Libc.

(** ** The ndbm interface *)

(** Modelled from the spec: the key-value engine declared in gdbm-ndbm.h is
    an external library and not among the sources.  Following section 6 of
    the specification it is a table of byte-string keys and contents with
    exact-match lookup, upsert, delete-if-present and first-key/next-key
    iteration.  The pairs are kept in the engine's iteration order; the
    cursor of the iteration is the key last handed out, remembered in the
    handle.  Input/output errors of the engine are outside the model, apart
    from [dbm_open], which can fail. *)
Module Ndbm.

(** A [datum]: [dptr] is [None] for the null pointer; [dsize] is the length. *)
Definition datum : Type := option (list char).

Definition mk_datum (p : list char) (dsize : nat) : datum :=
  Some (firstn dsize p).

Definition table : Type := list (list char * list char).

Fixpoint key_eqb (a b : list char) : bool :=
  match a, b with
  | [], [] => true
  | x :: a', y :: b' => Ascii.eqb x y && key_eqb a' b'
  | _, _ => false
  end.

(** The files of the file system, by name, and the database base names that
    cannot be opened (permissions, resource limits). *)
Record filesystem : Type := {
  fs_files : list (string * table);
  fs_denied : list string
}.

Record DBM : Type := {
  dbm_file : string;
  dbm_table : table;
  dbm_memory : datum
}.

Definition O_RDWR : Z := 2.
Definition O_CREAT : Z := 64.
Definition DBM_INSERT : Z := 0.
Definition DBM_REPLACE : Z := 1.

Fixpoint fs_lookup (name : string) (l : list (string * table)) : option table :=
  match l with
  | [] => None
  | (n, f) :: l' => if String.eqb n name then Some f else fs_lookup name l'
  end.

Definition fs_remove (name : string) (l : list (string * table))
  : list (string * table) :=
  filter (fun nf => negb (String.eqb (fst nf) name)) l.

Definition fs_write (name : string) (f : table) (l : list (string * table))
  : list (string * table) :=
  (name, f) :: fs_remove name l.

Definition unlink (name : string) (fs : filesystem) : filesystem :=
  {| fs_files := fs_remove name (fs_files fs); fs_denied := fs_denied fs |}.

Definition pag_of (base : string) : string := (base ++ ".pag")%string.
Definition dir_of (base : string) : string := (base ++ ".dir")%string.

(** Modelled from the spec: [dbm_open(file, flags, mode)] of the engine,
    open-or-create.  The pairs live in [file.pag], [file.dir] is its index
    (the engine's pair of files); a database that is absent is created empty
    when [O_CREAT] is given. *)
Definition dbm_open (fs : filesystem) (file : string) (flags mode : Z)
  : filesystem * option DBM :=
  if existsb (String.eqb file) (fs_denied fs) then (fs, None)
  else
    match fs_lookup (pag_of file) (fs_files fs),
          fs_lookup (dir_of file) (fs_files fs) with
    | Some t, Some _ =>
        (fs, Some {| dbm_file := file; dbm_table := t; dbm_memory := None |})
    | None, None =>
        if Z.testbit flags 6
        then ({| fs_files := fs_write (pag_of file) []
                               (fs_write (dir_of file) [] (fs_files fs));
                 fs_denied := fs_denied fs |},
              Some {| dbm_file := file; dbm_table := []; dbm_memory := None |})
        else (fs, None)
    | _, _ => (fs, None)
    end.

(** Modelled from the spec: [dbm_close] of the engine; the pairs of the
    handle are on disk afterwards. *)
Definition dbm_close (db : DBM) (fs : filesystem) : filesystem :=
  {| fs_files := fs_write (pag_of (dbm_file db)) (dbm_table db)
                   (fs_write (dir_of (dbm_file db)) [] (fs_files fs));
     fs_denied := fs_denied fs |}.

Fixpoint lookup (k : list char) (t : table) : option (list char) :=
  match t with
  | [] => None
  | (k', v) :: t' => if key_eqb k' k then Some v else lookup k t'
  end.

Fixpoint replace (k v : list char) (t : table) : table :=
  match t with
  | [] => [(k, v)]
  | (k', v') :: t' =>
      if key_eqb k' k then (k, v) :: t' else (k', v') :: replace k v t'
  end.

Definition remove (k : list char) (t : table) : table :=
  filter (fun kv => negb (key_eqb (fst kv) k)) t.

Fixpoint next_after (k : list char) (t : table) : datum :=
  match t with
  | [] => None
  | (k', _) :: t' =>
      if key_eqb k' k then
        match t' with
        | [] => None
        | (k'', _) :: _ => Some k''
        end
      else next_after k t'
  end.

(** Modelled from the spec: [dbm_fetch] of the engine, exact-match lookup;
    the null datum when the key is absent. *)
Definition dbm_fetch (db : DBM) (key : datum) : datum :=
  match key with
  | None => None
  | Some k => lookup k (dbm_table db)
  end.

(** Modelled from the spec: [dbm_store] of the engine, upsert; 0 on success
    (cd_access.c: "dbm_store() uses 0 for success"), 1 when [DBM_INSERT]
    meets an existing key, negative on failure. *)
Definition dbm_store (db : DBM) (key content : datum) (store_mode : Z)
  : Z * DBM :=
  match key, content with
  | Some k, Some v =>
      match lookup k (dbm_table db) with
      | Some _ =>
          if (store_mode =? DBM_REPLACE)%Z
          then (0%Z, {| dbm_file := dbm_file db;
                        dbm_table := replace k v (dbm_table db);
                        dbm_memory := dbm_memory db |})
          else (1%Z, db)
      | None =>
          (0%Z, {| dbm_file := dbm_file db;
                   dbm_table := replace k v (dbm_table db);
                   dbm_memory := dbm_memory db |})
      end
  | _, _ => ((-1)%Z, db)
  end.

(** Modelled from the spec: [dbm_delete] of the engine, delete-if-present;
    0 when the key was there and is removed, negative otherwise ("success is
    only reported when an existing key was removed"). *)
Definition dbm_delete (db : DBM) (key : datum) : Z * DBM :=
  match key with
  | None => ((-1)%Z, db)
  | Some k =>
      match lookup k (dbm_table db) with
      | Some _ =>
          (0%Z, {| dbm_file := dbm_file db;
                   dbm_table := remove k (dbm_table db);
                   dbm_memory := dbm_memory db |})
      | None => ((-1)%Z, db)
      end
  end.

Definition set_memory (db : DBM) (key : datum) : DBM :=
  {| dbm_file := dbm_file db; dbm_table := dbm_table db; dbm_memory := key |}.

(** Modelled from the spec: [dbm_firstkey] and [dbm_nextkey] of the engine,
    the iteration over all stored keys; the null datum at the end. *)
Definition dbm_firstkey (db : DBM) : datum * DBM :=
  let key := match dbm_table db with
             | [] => None
             | (k, _) :: _ => Some k
             end in
  (key, set_memory db key).

Definition dbm_nextkey (db : DBM) : datum * DBM :=
  let key := match dbm_memory db with
             | None => None
             | Some k => next_after k (dbm_table db)
             end in
  (key, set_memory db key).

End Ndbm.

Export Ndbm.

(** ** cd_data.h *)

(** Modelled from the spec: the header cd_data.h, which declares
    [CAT_CAT_LEN] and the structures [cdc_entry] and [cdt_entry], is not among
    the sources.  The specification gives a record as a fixed-size value blob
    whose [catalog] member is a string below a fixed bound; the access
    functions use nothing else of a catalog record, and of a track record
    only the member [track_no] besides.  A record is kept as its object
    representation, [catalog] being the first member, an array of
    [CAT_CAT_LEN + 1] bytes; the remaining layout is a parameter. *)
Class cd_data : Type := {
  CAT_CAT_LEN : nat;
  cdc_rest : nat;
  cdt_rest : nat;
  read_track_no : list char -> Z
}.

Section CdAccess.

Context {layout : cd_data}.

Definition cdc_entry : Type := list char.
Definition cdt_entry : Type := list char.

Definition sizeof_cdc_entry : nat := CAT_CAT_LEN + 1 + cdc_rest.
Definition sizeof_cdt_entry : nat := CAT_CAT_LEN + 1 + cdt_rest.

(** Member access [entry.catalog] and [entry.track_no].  The string in
    [catalog] is read inside the array of [CAT_CAT_LEN + 1] bytes: that is
    the string the C functions see whenever the array holds a zero byte,
    which is so for every record the access functions store ([cdc_keyed]
    below); the statements about the entries a search picks are for such
    records. *)
Definition catalog (entry : list char) : list char :=
  firstn (CAT_CAT_LEN + 1) entry.

Definition track_no (entry : cdt_entry) : Z := read_track_no entry.

(** ** cd_access.c *)

Definition CDC_FILE_BASE : string := "cdc_data".
Definition CDT_FILE_BASE : string := "cdt_data".
Definition CDC_FILE_DIR : string := "cdc_data.dir".
Definition CDC_FILE_PAG : string := "cdc_data.pag".
Definition CDT_FILE_DIR : string := "cdt_data.dir".
Definition CDT_FILE_PAG : string := "cdt_data.pag".

(** The file-scope variables, the two [static] locals of
    [search_cdc_entry], and the part of the environment the functions act
    on. *)
Record state : Type := {
  cdc_dbm_ptr : option DBM;
  cdt_dbm_ptr : option DBM;
  local_first_call : Z;
  local_key_datum : datum;
  disk : filesystem;
  stderr : list string
}.

(** The state at process start: both pointers null and
    [local_first_call] at 1, its initialiser. *)
Definition initial_state (fs : filesystem) : state :=
  {| cdc_dbm_ptr := None; cdt_dbm_ptr := None;
     local_first_call := 1; local_key_datum := None;
     disk := fs; stderr := [] |}.

Definition database_initialize (new_database : Z) (st : state) : Z * state :=
  let open_mode := Z.lor O_CREAT O_RDWR in
  let fs := match cdc_dbm_ptr st with
            | Some db => dbm_close db (disk st)
            | None => disk st
            end in
  let fs := match cdt_dbm_ptr st with
            | Some db => dbm_close db fs
            | None => fs
            end in
  let fs := if (new_database =? 0)%Z then fs
            else unlink CDT_FILE_DIR
                   (unlink CDT_FILE_PAG
                      (unlink CDC_FILE_DIR (unlink CDC_FILE_PAG fs))) in
  let '(fs, cdc) := dbm_open fs CDC_FILE_BASE open_mode 420 in
  let '(fs, cdt) := dbm_open fs CDT_FILE_BASE open_mode 420 in
  match cdc, cdt with
  | Some _, Some _ =>
      (1%Z, {| cdc_dbm_ptr := cdc; cdt_dbm_ptr := cdt;
               local_first_call := local_first_call st;
               local_key_datum := local_key_datum st;
               disk := fs; stderr := stderr st |})
  | _, _ =>
      (0%Z, {| cdc_dbm_ptr := None; cdt_dbm_ptr := None;
               local_first_call := local_first_call st;
               local_key_datum := local_key_datum st;
               disk := fs;
               stderr := stderr st ++ ["Unable to create database"%string] |})
  end.

Definition database_close (st : state) : state :=
  let fs := match cdc_dbm_ptr st with
            | Some db => dbm_close db (disk st)
            | None => disk st
            end in
  let fs := match cdt_dbm_ptr st with
            | Some db => dbm_close db fs
            | None => fs
            end in
  {| cdc_dbm_ptr := None; cdt_dbm_ptr := None;
     local_first_call := local_first_call st;
     local_key_datum := local_key_datum st;
     disk := fs; stderr := stderr st |}.

Definition set_cdc (st : state) (db : DBM) : state :=
  {| cdc_dbm_ptr := Some db; cdt_dbm_ptr := cdt_dbm_ptr st;
     local_first_call := local_first_call st;
     local_key_datum := local_key_datum st;
     disk := disk st; stderr := stderr st |}.

Definition set_cdt (st : state) (db : DBM) : state :=
  {| cdc_dbm_ptr := cdc_dbm_ptr st; cdt_dbm_ptr := Some db;
     local_first_call := local_first_call st;
     local_key_datum := local_key_datum st;
     disk := disk st; stderr := stderr st |}.

Definition get_cdc_entry (cd_catalog_ptr : cptr) (st : state) : res cdc_entry :=
  let entry_to_return := memset_zero sizeof_cdc_entry in
  match cdc_dbm_ptr st, cdt_dbm_ptr st with
  | Some cdc, Some _ =>
      match cd_catalog_ptr with
      | None => Done entry_to_return
      | Some _ =>
          len <- strlen cd_catalog_ptr ;;
          if CAT_CAT_LEN <=? len then Done entry_to_return
          else
            let entry_to_find := memset_zero (CAT_CAT_LEN + 1) in
            entry_to_find <- strcpy entry_to_find cd_catalog_ptr ;;
            let local_key_datum := mk_datum entry_to_find (CAT_CAT_LEN + 1) in
            match dbm_fetch cdc local_key_datum with
            | Some d => memcpy entry_to_return d (length d)
            | None => Done entry_to_return
            end
      end
  | _, _ => Done entry_to_return
  end.

Definition get_cdt_entry (cd_catalog_ptr : cptr) (track_no : Z) (st : state)
  : res cdt_entry :=
  let entry_to_return := memset_zero sizeof_cdt_entry in
  match cdc_dbm_ptr st, cdt_dbm_ptr st with
  | Some _, Some cdt =>
      match cd_catalog_ptr with
      | None => Done entry_to_return
      | Some _ =>
          len <- strlen cd_catalog_ptr ;;
          if CAT_CAT_LEN <=? len then Done entry_to_return
          else
            let entry_to_find := memset_zero (CAT_CAT_LEN + 10) in
            entry_to_find <- sprintf_s_d entry_to_find cd_catalog_ptr track_no ;;
            let local_key_datum := mk_datum entry_to_find (CAT_CAT_LEN + 10) in
            match dbm_fetch cdt local_key_datum with
            | Some d => memcpy entry_to_return d (length d)
            | None => Done entry_to_return
            end
      end
  | _, _ => Done entry_to_return
  end.

Definition add_cdc_entry (entry_to_add : cdc_entry) (st : state)
  : res (Z * state) :=
  match cdc_dbm_ptr st, cdt_dbm_ptr st with
  | Some cdc, Some _ =>
      len <- strlen (Some (catalog entry_to_add)) ;;
      if CAT_CAT_LEN <=? len then Done (0%Z, st)
      else
        let key_to_add := memset_zero (CAT_CAT_LEN + 1) in
        key_to_add <- strcpy key_to_add (Some (catalog entry_to_add)) ;;
        let local_key_datum := mk_datum key_to_add (CAT_CAT_LEN + 1) in
        let local_data_datum := mk_datum entry_to_add sizeof_cdc_entry in
        let '(result, cdc) :=
          dbm_store cdc local_key_datum local_data_datum DBM_REPLACE in
        if (result =? 0)%Z then Done (1%Z, set_cdc st cdc)
        else Done (0%Z, set_cdc st cdc)
  | _, _ => Done (0%Z, st)
  end.

Definition add_cdt_entry (entry_to_add : cdt_entry) (st : state)
  : res (Z * state) :=
  match cdc_dbm_ptr st, cdt_dbm_ptr st with
  | Some _, Some cdt =>
      len <- strlen (Some (catalog entry_to_add)) ;;
      if CAT_CAT_LEN <=? len then Done (0%Z, st)
      else
        let key_to_add := memset_zero (CAT_CAT_LEN + 10) in
        key_to_add <- sprintf_s_d key_to_add (Some (catalog entry_to_add))
                        (track_no entry_to_add) ;;
        let local_key_datum := mk_datum key_to_add (CAT_CAT_LEN + 10) in
        let local_data_datum := mk_datum entry_to_add sizeof_cdt_entry in
        let '(result, cdt) :=
          dbm_store cdt local_key_datum local_data_datum DBM_REPLACE in
        if (result =? 0)%Z then Done (1%Z, set_cdt st cdt)
        else Done (0%Z, set_cdt st cdt)
  | _, _ => Done (0%Z, st)
  end.

Definition del_cdc_entry (cd_catalog_ptr : cptr) (st : state)
  : res (Z * state) :=
  match cdc_dbm_ptr st, cdt_dbm_ptr st with
  | Some cdc, Some _ =>
      len <- strlen cd_catalog_ptr ;;
      if CAT_CAT_LEN <=? len then Done (0%Z, st)
      else
        let key_to_del := memset_zero (CAT_CAT_LEN + 1) in
        key_to_del <- strcpy key_to_del cd_catalog_ptr ;;
        let local_key_datum := mk_datum key_to_del (CAT_CAT_LEN + 1) in
        let '(result, cdc) := dbm_delete cdc local_key_datum in
        if (result =? 0)%Z then Done (1%Z, set_cdc st cdc)
        else Done (0%Z, set_cdc st cdc)
  | _, _ => Done (0%Z, st)
  end.

Definition del_cdt_entry (cd_catalog_ptr : cptr) (track_no : Z) (st : state)
  : res (Z * state) :=
  match cdc_dbm_ptr st, cdt_dbm_ptr st with
  | Some _, Some cdt =>
      len <- strlen cd_catalog_ptr ;;
      if CAT_CAT_LEN <=? len then Done (0%Z, st)
      else
        let key_to_del := memset_zero (CAT_CAT_LEN + 10) in
        key_to_del <- sprintf_s_d key_to_del cd_catalog_ptr track_no ;;
        let local_key_datum := mk_datum key_to_del (CAT_CAT_LEN + 10) in
        let '(result, cdt) := dbm_delete cdt local_key_datum in
        if (result =? 0)%Z then Done (1%Z, set_cdt st cdt)
        else Done (0%Z, set_cdt st cdt)
  | _, _ => Done (0%Z, st)
  end.

(** The [do ... while] loop of [search_cdc_entry].  [local_data_datum] is
    indeterminate until the first fetch; the loop condition reads it only
    behind a non-null [local_key_datum.dptr], that is after a fetch. *)
Fixpoint search_loop (fuel : nat) (cdc : DBM) (cd_catalog_ptr : list char)
  (local_key_datum local_data_datum : datum) (entry_to_return : cdc_entry)
  : res (DBM * datum * cdc_entry) :=
  match fuel with
  | O => OutOfFuel
  | S fuel' =>
      body <-
        match local_key_datum with
        | Some _ =>
            let local_data_datum := dbm_fetch cdc local_key_datum in
            match local_data_datum with
            | Some d =>
                entry_to_return <- memcpy entry_to_return d (length d) ;;
                match strstr (catalog entry_to_return) cd_catalog_ptr with
                | None =>
                    let '(key, cdc) := dbm_nextkey cdc in
                    Done (cdc, key, local_data_datum,
                          memset_zero sizeof_cdc_entry)
                | Some _ =>
                    Done (cdc, local_key_datum, local_data_datum,
                          entry_to_return)
                end
            | None =>
                Done (cdc, local_key_datum, local_data_datum, entry_to_return)
            end
        | None =>
            Done (cdc, local_key_datum, local_data_datum, entry_to_return)
        end ;;
      let '(cdc, local_key_datum, local_data_datum, entry_to_return) := body in
      match local_key_datum, local_data_datum with
      | Some _, Some _ =>
          if is_nul (nth 0 (catalog entry_to_return) NUL)
          then search_loop fuel' cdc cd_catalog_ptr local_key_datum
                 local_data_datum entry_to_return
          else Done (cdc, local_key_datum, entry_to_return)
      | _, _ => Done (cdc, local_key_datum, entry_to_return)
      end
  end.

(** [first_call_ptr] is [None] for the null pointer and [Some v] when it
    points at an [int] holding [v]; the value it points at after the call is
    returned with the entry. *)
Definition search_cdc_entry (fuel : nat) (cd_catalog_ptr : cptr)
  (first_call_ptr : option Z) (st : state)
  : res (cdc_entry * option Z * state) :=
  let entry_to_return := memset_zero sizeof_cdc_entry in
  match cdc_dbm_ptr st, cdt_dbm_ptr st with
  | Some cdc, Some _ =>
      match cd_catalog_ptr, first_call_ptr with
      | Some s, Some first_call =>
          len <- strlen cd_catalog_ptr ;;
          if CAT_CAT_LEN <=? len then Done (entry_to_return, first_call_ptr, st)
          else
            let '(local_first_call, first_call) :=
              if (local_first_call st =? 0)%Z
              then (local_first_call st, first_call)
              else (0%Z, 1%Z) in
            let '(first_call, (local_key_datum, cdc)) :=
              if (first_call =? 0)%Z
              then (first_call, dbm_nextkey cdc)
              else (0%Z, dbm_firstkey cdc) in
            r <- search_loop fuel cdc s local_key_datum None entry_to_return ;;
            let '(cdc, local_key_datum, entry_to_return) := r in
            Done (entry_to_return, Some first_call,
                  {| cdc_dbm_ptr := Some cdc; cdt_dbm_ptr := cdt_dbm_ptr st;
                     local_first_call := local_first_call;
                     local_key_datum := local_key_datum;
                     disk := disk st; stderr := stderr st |})
      | _, _ => Done (entry_to_return, first_call_ptr, st)
      end
  | _, _ => Done (entry_to_return, first_call_ptr, st)
  end.

(** ** A caller of the search *)

(** [calls] successive calls of [search_cdc_entry] with the same search
    string, the caller handing the same [int] to each call. *)
Fixpoint search_calls (calls fuel : nat) (cd_catalog_ptr : cptr)
  (first_call_ptr : option Z) (st : state)
  : res (list cdc_entry * option Z * state) :=
  match calls with
  | O => Done ([], first_call_ptr, st)
  | S calls' =>
      r <- search_cdc_entry fuel cd_catalog_ptr first_call_ptr st ;;
      let '(entry, first_call_ptr, st) := r in
      r' <- search_calls calls' fuel cd_catalog_ptr first_call_ptr st ;;
      let '(entries, first_call_ptr, st) := r' in
      Done (entry :: entries, first_call_ptr, st)
  end.

(** ** Vocabulary of the statements *)

Definition is_open (st : state) : Prop :=
  cdc_dbm_ptr st <> None /\ cdt_dbm_ptr st <> None.

Definition is_closed (st : state) : Prop :=
  cdc_dbm_ptr st = None /\ cdt_dbm_ptr st = None.

(** The text of the composite key of a track. *)
Definition track_text (cat : list char) (track : Z) : list char :=
  c_str cat ++ " "%char :: itoa track.

(** [text] at the start of a buffer of [size] zero bytes. *)
Definition padded (text : list char) (size : nat) : list char :=
  text ++ repeat NUL (size - length text).

(** [needle] occurs in the string [hay]. *)
Definition occurs_in (needle hay : list char) : Prop :=
  exists pre post, hay = pre ++ needle ++ post.

(** The buffer a catalog function hands to the engine as key once the string
    [m] has been copied into it, and the one a track function hands over
    once the text has been printed into it. *)
Definition cdc_key (m : list char) : list char :=
  padded (c_str m) (CAT_CAT_LEN + 1).

Definition cdt_key (m : list char) (track : Z) : list char :=
  padded (track_text m track) (CAT_CAT_LEN + 10).

Definition with_table (db : DBM) (t : table) : DBM :=
  {| dbm_file := dbm_file db; dbm_table := t; dbm_memory := dbm_memory db |}.

(** A record is stored in the catalog table under the key of the string
    [m]. *)
Definition cdc_stored (m : list char) (st : state) : Prop :=
  exists db, cdc_dbm_ptr st = Some db /\
             dbm_fetch db (Some (cdc_key m)) <> None.

(** The text of a track key and its terminator fit the key buffer. *)
Definition track_key_fits (m : list char) (track : Z) : Prop :=
  length (c_str m) + 1 + length (itoa track) <= CAT_CAT_LEN + 9.

(** The track key in the words of the specification: the text in a buffer
    of bound + 9 bytes. *)
Definition spec_cdt_key (m : list char) (track : Z) : list char :=
  padded (track_text m track) (CAT_CAT_LEN + 9).

(** The search string occurs in the catalog string of an entry. *)
Definition contains (s : list char) (entry : cdc_entry) : bool :=
  match strstr (catalog entry) s with
  | Some _ => true
  | None => false
  end.

Definition hd_key (t : table) : datum :=
  match t with
  | [] => None
  | (k, _) :: _ => Some k
  end.

(** The first pair of [t] whose entry contains [s], and the entries of [t]
    that contain [s], in the order of [t]. *)
Definition first_match (s : list char) (t : table)
  : option (list char * list char) :=
  find (fun kv => contains s (snd kv)) t.

Definition matching (s : list char) (t : table) : list cdc_entry :=
  filter (contains s) (map snd t).

(** The contents of a table have the size of a catalog record. *)
Definition cdc_sized (t : table) : Prop :=
  Forall (fun kv => length (snd kv) = sizeof_cdc_entry) t.

(** The pairs that follow the key [k] in [t], and the pairs a handle has not
    yet handed out. *)
Fixpoint after (k : list char) (t : table) : table :=
  match t with
  | [] => []
  | (k', _) :: t' => if key_eqb k' k then t' else after k t'
  end.

Definition remaining (db : DBM) : table :=
  match dbm_memory db with
  | Some k => after k (dbm_table db)
  | None => []
  end.

Definition found_key (s : list char) (t : table) : datum :=
  option_map fst (first_match s t).

Definition found_entry (s : list char) (t : table) : cdc_entry :=
  match first_match s t with
  | Some kv => snd kv
  | None => memset_zero sizeof_cdc_entry
  end.

(** The state a search leaves behind. *)
Definition search_state (st : state) (db : DBM) (key : datum) : state :=
  {| cdc_dbm_ptr := Some (set_memory db key); cdt_dbm_ptr := cdt_dbm_ptr st;
     local_first_call := 0; local_key_datum := key;
     disk := disk st; stderr := stderr st |}.

End CdAccess.

(** ** A sample layout and sample data *)

Definition byte_at (i : nat) (m : list char) : Z :=
  Z.of_nat (nat_of_ascii (nth i m NUL)).

(** A little-endian 32-bit two's complement [int] at offset 32. *)
Definition sample_read_track_no (m : list char) : Z :=
  let u := Z.lor (byte_at 32 m)
             (Z.lor (Z.shiftl (byte_at 33 m) 8)
                (Z.lor (Z.shiftl (byte_at 34 m) 16)
                   (Z.shiftl (byte_at 35 m) 24))) in
  if (u <? 2147483648)%Z then u else (u - 4294967296)%Z.

(** Catalog numbers of up to 30 characters; a catalog record of 204 bytes and
    a track record of 108 bytes with [track_no] at offset 32. *)
Definition sample_layout : cd_data :=
  {| CAT_CAT_LEN := 30; cdc_rest := 173; cdt_rest := 77;
     read_track_no := sample_read_track_no |}.

Definition bytes (s : string) : list char := list_ascii_of_string s.

Definition sample_cdc (cat title : string) : list char :=
  padded (bytes cat) 31 ++ padded (bytes title) 173.

Definition sample_cdt (cat : string) (track : nat) (text : string)
  : list char :=
  padded (bytes cat) 32
    ++ [ascii_of_nat track; NUL; NUL; NUL] ++ padded (bytes text) 72.

Definition empty_fs : filesystem := {| fs_files := []; fs_denied := [] |}.

Definition sample_open (cdc cdt : table) : state :=
  {| cdc_dbm_ptr := Some {| dbm_file := "cdc_data"; dbm_table := cdc;
                            dbm_memory := None |};
     cdt_dbm_ptr := Some {| dbm_file := "cdt_data"; dbm_table := cdt;
                            dbm_memory := None |};
     local_first_call := 1; local_key_datum := None;
     disk := empty_fs; stderr := [] |}.

Definition sample_key (cat : string) : list char := padded (bytes cat) 31.

Definition sample_track_key (text : string) : list char :=
  padded (bytes text) 40.

Definition sample_r1 : list char := sample_cdc "AAA1" "First album".
Definition sample_r2 : list char := sample_cdc "AAA2" "Second album".
Definition sample_r3 : list char := sample_cdc "BBB1" "Third album".

Definition sample_table : table :=
  [(sample_key "AAA1", sample_r1);
   (sample_key "BBB1", sample_r3);
   (sample_key "AAA2", sample_r2)].

Definition sample_track : list char := sample_cdt "AAA1" 7 "Track seven".

(** A catalog string one short of the bound of the sample layout. *)
Definition sample_long_catalog : list char :=
  bytes "ABCDEFGHIJKLMNOPQRSTUVWXYZ123".

(** An open store with files on disk and contents in both tables. *)
Definition sample_used : state :=
  {| cdc_dbm_ptr := Some {| dbm_file := "cdc_data"; dbm_table := sample_table;
                            dbm_memory := None |};
     cdt_dbm_ptr := Some {| dbm_file := "cdt_data";
                            dbm_table := [(sample_track_key "AAA1 7",
                                           sample_track)];
                            dbm_memory := None |};
     local_first_call := 0; local_key_datum := None;
     disk := {| fs_files := [("cdc_data.pag"%string, sample_table);
                             ("cdc_data.dir"%string, []);
                             ("cdt_data.pag"%string, []);
                             ("cdt_data.dir"%string, [])];
                fs_denied := [] |};
     stderr := [] |}.

(** A new database made from [sample_used], the same after one record has
    been added, a second record for the catalog string of [sample_r1], a
    record with an empty catalog string, and a catalog string that reaches
    the bound of the sample layout. *)
Definition sample_new : state := snd (database_initialize 1 sample_used).

Definition sample_one : state :=
  match @add_cdc_entry sample_layout sample_r1 sample_new with
  | Done (_, st) => st
  | _ => sample_new
  end.

Definition sample_r1_again : list char := sample_cdc "AAA1" "Remastered".

Definition sample_unnamed : list char := sample_cdc "" "Untitled".


(** ** Invariants of the tables *)

Section CdAccessStores.

Context {layout : cd_data}.

(** The pairs of the two tables; none when the table is not open. *)
Definition cdc_table (st : state) : table :=
  match cdc_dbm_ptr st with
  | Some db => dbm_table db
  | None => []
  end.

Definition cdt_table (st : state) : table :=
  match cdt_dbm_ptr st with
  | Some db => dbm_table db
  | None => []
  end.

(** Every pair of a catalog table sits under the key of the catalog string
    of its own record, a string below the bound. *)
Definition cdc_keyed (t : table) : Prop :=
  Forall (fun kv => fst kv = cdc_key (catalog (snd kv)) /\
                    length (c_str (catalog (snd kv))) < CAT_CAT_LEN) t.

Definition cdc_wf (st : state) : Prop :=
  NoDup (map fst (cdc_table st)) /\
  cdc_sized (cdc_table st) /\
  cdc_keyed (cdc_table st).

(** The stores built from a new database by the access functions. *)
Inductive built : state -> Prop :=
| built_new (new_database : Z) (st st' : state) :
    new_database <> 0%Z ->
    database_initialize new_database st = (1%Z, st') ->
    built st'
| built_add_cdc (r : cdc_entry) (st st' : state) (result : Z) :
    built st -> length r = sizeof_cdc_entry ->
    add_cdc_entry r st = Done (result, st') ->
    built st'
| built_add_cdt (r : cdt_entry) (st st' : state) (result : Z) :
    built st ->
    add_cdt_entry r st = Done (result, st') ->
    built st'
| built_del_cdc (p : cptr) (st st' : state) (result : Z) :
    built st ->
    del_cdc_entry p st = Done (result, st') ->
    built st'
| built_del_cdt (p : cptr) (d : Z) (st st' : state) (result : Z) :
    built st ->
    del_cdt_entry p d st = Done (result, st') ->
    built st'
| built_search (fuel : nat) (p : cptr) (f f' : option Z) (st st' : state)
    (entry : cdc_entry) :
    built st ->
    search_cdc_entry fuel p f st = Done (entry, f', st') ->
    built st'.

End CdAccessStores.

(** * Facts *)

(** ** The C library *)

Lemma is_nul_NUL : is_nul NUL = true.
Proof. reflexivity. Qed.

Example itoa_positive : itoa 7 = bytes "7".
Proof. reflexivity. Qed.

Example itoa_zero : itoa 0 = bytes "0".
Proof. reflexivity. Qed.

Example itoa_negative : itoa (-2147483648) = bytes "-2147483648".
Proof. reflexivity. Qed.

Lemma itoa_minus (p : positive) :
  itoa (Z.neg p) = "-"%char :: itoa (Z.pos p).
Proof. reflexivity. Qed.

Lemma c_str_le (m : list char) : length (c_str m) <= length m.
Proof.
  induction m as [|c m IH]; simpl; [lia|].
  destruct (is_nul c); simpl; lia.
Qed.

Lemma c_str_stop (m rest : list char) :
  c_str (c_str m ++ NUL :: rest) = c_str m.
Proof.
  induction m as [|c m IH]; simpl; [reflexivity|].
  destruct (is_nul c) eqn:E; simpl; [reflexivity|].
  rewrite E, IH. reflexivity.
Qed.

Lemma c_str_idem (m : list char) : c_str (c_str m) = c_str m.
Proof.
  induction m as [|c m IH]; simpl; [reflexivity|].
  destruct (is_nul c) eqn:E; simpl; [reflexivity|].
  rewrite E, IH. reflexivity.
Qed.

Lemma c_str_firstn (n : nat) (m : list char) :
  length (c_str (firstn n m)) < n -> c_str (firstn n m) = c_str m.
Proof.
  revert m; induction n as [|n IH]; intros [|c m]; simpl; try lia; auto.
  destruct (is_nul c); simpl; [reflexivity|].
  intros Hlt. f_equal. apply IH. lia.
Qed.

Lemma length_memset_zero (n : nat) : length (memset_zero n) = n.
Proof. apply repeat_length. Qed.

Lemma skipn_repeat {A : Type} (a : A) (k n : nat) :
  skipn k (repeat a n) = repeat a (n - k).
Proof.
  revert n; induction k as [|k IH]; intros [|n]; simpl; auto.
Qed.

Lemma length_padded (text : list char) (size : nat) :
  length text <= size -> length (padded text size) = size.
Proof.
  intros Hle. unfold padded. rewrite length_app, repeat_length. lia.
Qed.

Lemma c_str_padded (m : list char) (size : nat) :
  c_str (padded (c_str m) size) = c_str m.
Proof.
  unfold padded. destruct (size - length (c_str m)) as [|k]; simpl.
  - rewrite app_nil_r. apply c_str_idem.
  - apply c_str_stop.
Qed.

(** Writing a string that fits over a zeroed buffer leaves the padded
    string. *)
Lemma write_over_zeros (text : list char) (size : nat) :
  length text + 1 <= size ->
  text ++ NUL :: skipn (length text + 1) (memset_zero size) = padded text size.
Proof.
  intros Hle. unfold padded, memset_zero. rewrite skipn_repeat.
  replace (size - length text) with (S (size - (length text + 1))) by lia.
  reflexivity.
Qed.

Lemma strcpy_zeros (m : list char) (size : nat) :
  length (c_str m) < size ->
  strcpy (memset_zero size) (Some m) = Done (padded (c_str m) size).
Proof.
  intros Hlt. unfold strcpy.
  rewrite length_app, length_memset_zero. simpl length.
  destruct (Nat.leb_spec (length (c_str m) + 1) size) as [_|Hgt]; [|lia].
  rewrite <- app_assoc. simpl. rewrite write_over_zeros by lia. reflexivity.
Qed.

Lemma sprintf_zeros (m : list char) (d : Z) (size : nat) :
  length (track_text m d) + 1 <= size ->
  sprintf_s_d (memset_zero size) (Some m) d = Done (padded (track_text m d) size).
Proof.
  intros Hle. unfold sprintf_s_d. fold (track_text m d).
  rewrite length_memset_zero.
  destruct (Nat.leb_spec (length (track_text m d) + 1) size) as [_|Hgt]; [|lia].
  rewrite write_over_zeros by lia. reflexivity.
Qed.

Lemma sprintf_zeros_overflow (m : list char) (d : Z) (size : nat) :
  size < length (track_text m d) + 1 ->
  sprintf_s_d (memset_zero size) (Some m) d = Undefined.
Proof.
  intros Hlt. unfold sprintf_s_d. fold (track_text m d).
  rewrite length_memset_zero.
  destruct (Nat.leb_spec (length (track_text m d) + 1) size) as [Hle|_]; [lia|].
  reflexivity.
Qed.

Lemma memcpy_whole (dst src : list char) :
  length src = length dst -> memcpy dst src (length src) = Done src.
Proof.
  intros Hlen. unfold memcpy. rewrite Hlen at 1. rewrite !Nat.leb_refl. simpl.
  rewrite firstn_all, Hlen, skipn_all, app_nil_r. reflexivity.
Qed.

(** ** The table *)

Lemma key_eqb_eq (a b : list char) : key_eqb a b = true <-> a = b.
Proof.
  revert b; induction a as [|x a IH]; intros [|y b]; simpl;
    try (split; [discriminate|discriminate]); [tauto|].
  rewrite andb_true_iff, Ascii.eqb_eq, IH.
  split; [intros [-> ->]; reflexivity | intros E; inversion E; auto].
Qed.

Lemma key_eqb_refl (a : list char) : key_eqb a a = true.
Proof. apply key_eqb_eq. reflexivity. Qed.

Lemma key_eqb_neq (a b : list char) : key_eqb a b = false <-> a <> b.
Proof.
  rewrite <- key_eqb_eq. destruct (key_eqb a b); split; congruence.
Qed.

Lemma lookup_replace (k v : list char) (t : table) :
  lookup k (replace k v t) = Some v.
Proof.
  induction t as [|[k' v'] t IH]; simpl.
  - rewrite key_eqb_refl. reflexivity.
  - destruct (key_eqb k' k) eqn:E; simpl.
    + rewrite key_eqb_refl. reflexivity.
    + rewrite E. exact IH.
Qed.

Lemma lookup_remove (k : list char) (t : table) : lookup k (remove k t) = None.
Proof.
  induction t as [|[k' v'] t IH]; simpl; [reflexivity|].
  destruct (key_eqb k' k) eqn:E; simpl; [exact IH|].
  rewrite E. exact IH.
Qed.

Lemma lookup_in (k : list char) (t : table) :
  lookup k t <> None <-> In k (map fst t).
Proof.
  induction t as [|[k' v'] t IH]; simpl; [tauto|].
  destruct (key_eqb k' k) eqn:E.
  - apply key_eqb_eq in E. split; [auto|discriminate].
  - apply key_eqb_neq in E. rewrite IH. tauto.
Qed.

Lemma prefix_b_spec (p s : list char) :
  prefix_b p s = true <-> exists post, s = p ++ post.
Proof.
  revert s; induction p as [|a p IH]; intros s; simpl.
  - split; [intros _; exists s; reflexivity | reflexivity].
  - destruct s as [|b s].
    + split; [discriminate | intros [post E]; discriminate].
    + rewrite andb_true_iff, Ascii.eqb_eq, IH. split.
      * intros [-> [post ->]]. exists post. reflexivity.
      * intros [post E]. injection E as -> ->. split; [reflexivity|].
        exists post. reflexivity.
Qed.

(** [strstr] finds the needle exactly when it occurs somewhere in the
    haystack. *)
Lemma find_sub_spec (needle hay : list char) :
  find_sub needle hay <> None <-> occurs_in needle hay.
Proof.
  induction hay as [|c hay IH]; simpl.
  - destruct (prefix_b needle []) eqn:E.
    + split; [intros _|discriminate].
      apply prefix_b_spec in E. destruct E as [post Epost].
      exists [], post. exact Epost.
    + split; [congruence|].
      intros (pre & post & E'). exfalso.
      destruct pre; [|discriminate]. simpl in E'.
      assert (prefix_b needle [] = true)
        by (apply prefix_b_spec; exists post; exact E').
      congruence.
  - destruct (prefix_b needle (c :: hay)) eqn:E.
    + split; [intros _|discriminate].
      apply prefix_b_spec in E. destruct E as [post Epost].
      exists [], post. exact Epost.
    + assert (Hiff : option_map S (find_sub needle hay) <> None
                     <-> find_sub needle hay <> None)
        by (destruct (find_sub needle hay); simpl; split; congruence).
      rewrite Hiff, IH. split.
      * intros (pre & post & ->). exists (c :: pre), post. reflexivity.
      * intros (pre & post & E'). destruct pre as [|c' pre].
        -- exfalso. simpl in E'.
           assert (prefix_b needle (c :: hay) = true)
             by (apply prefix_b_spec; exists post; exact E').
           congruence.
        -- injection E' as _ ->. exists pre, post. reflexivity.
Qed.

Lemma strstr_spec (haystack needle : list char) :
  strstr haystack needle <> None <-> occurs_in (c_str needle) (c_str haystack).
Proof. apply find_sub_spec. Qed.

Lemma c_str_head (m : list char) :
  c_str m <> [] -> is_nul (nth 0 m NUL) = false.
Proof.
  destruct m as [|c m]; simpl; [congruence|].
  destruct (is_nul c); [congruence|reflexivity].
Qed.

Lemma Permutation_filter {A : Type} (f : A -> bool) (l l' : list A) :
  Permutation l l' -> Permutation (filter f l) (filter f l').
Proof.
  induction 1 as [|x l l' _ IH|x y l|l l' l'' _ IH1 _ IH2]; simpl.
  - constructor.
  - destruct (f x); [constructor|]; exact IH.
  - destruct (f x), (f y); try apply Permutation_refl. constructor.
  - eapply Permutation_trans; eassumption.
Qed.

Lemma lookup_app_notin (k v : list char) (pre suf : table) :
  ~ In k (map fst pre) -> lookup k (pre ++ (k, v) :: suf) = Some v.
Proof.
  induction pre as [|[k' v'] pre IH]; simpl; intros Hnot.
  - rewrite key_eqb_refl. reflexivity.
  - destruct (key_eqb k' k) eqn:E.
    + apply key_eqb_eq in E. tauto.
    + apply IH. tauto.
Qed.

Lemma next_after_app (k v : list char) (pre suf : table) :
  ~ In k (map fst pre) ->
  next_after k (pre ++ (k, v) :: suf) = hd_key suf.
Proof.
  induction pre as [|[k' v'] pre IH]; simpl; intros Hnot.
  - rewrite key_eqb_refl. destruct suf as [|[k'' v''] suf]; reflexivity.
  - destruct (key_eqb k' k) eqn:E.
    + apply key_eqb_eq in E. tauto.
    + apply IH. tauto.
Qed.

Lemma NoDup_keys_app (k v : list char) (pre suf : table) :
  NoDup (map fst (pre ++ (k, v) :: suf)) -> ~ In k (map fst pre).
Proof.
  rewrite map_app. simpl. intros Hnd Hin.
  apply NoDup_remove_2 in Hnd. apply Hnd.
  apply in_or_app. left. exact Hin.
Qed.

Section CdAccessFacts.

Context {layout : cd_data}.

Lemma mk_datum_whole (p : list char) (n : nat) :
  length p = n -> mk_datum p n = Some p.
Proof. intros <-. unfold mk_datum. rewrite firstn_all. reflexivity. Qed.

Lemma cdc_key_datum (m : list char) :
  length (c_str m) < CAT_CAT_LEN ->
  (entry_to_find <- strcpy (memset_zero (CAT_CAT_LEN + 1)) (Some m) ;;
   Done (mk_datum entry_to_find (CAT_CAT_LEN + 1)))
  = Done (Some (cdc_key m)).
Proof.
  intros Hlt. rewrite strcpy_zeros by lia. cbn [bind].
  rewrite mk_datum_whole; [reflexivity|]. apply length_padded. lia.
Qed.

(** What [add_cdc_entry] does once its checks have passed. *)
Lemma add_cdc_entry_open (r : cdc_entry) (st : state) (cdc cdt : DBM) :
  cdc_dbm_ptr st = Some cdc -> cdt_dbm_ptr st = Some cdt ->
  length (c_str (catalog r)) < CAT_CAT_LEN ->
  add_cdc_entry r st =
  Done (1%Z, set_cdc st (with_table cdc
                           (replace (cdc_key (catalog r))
                              (firstn sizeof_cdc_entry r) (dbm_table cdc)))).
Proof.
  intros Hc Ht Hlt. unfold add_cdc_entry. rewrite Hc, Ht. cbn [strlen bind].
  destruct (Nat.leb_spec CAT_CAT_LEN (length (c_str (catalog r)))) as [Hge|_];
    [lia|].
  rewrite strcpy_zeros by lia. cbn [bind].
  rewrite mk_datum_whole by (apply length_padded; lia).
  unfold mk_datum, dbm_store. fold (cdc_key (catalog r)).
  destruct (lookup (cdc_key (catalog r)) (dbm_table cdc)); reflexivity.
Qed.

(** What [get_cdc_entry] does once its checks have passed. *)
Lemma get_cdc_entry_open (m : list char) (st : state) (cdc cdt : DBM) :
  cdc_dbm_ptr st = Some cdc -> cdt_dbm_ptr st = Some cdt ->
  length (c_str m) < CAT_CAT_LEN ->
  get_cdc_entry (Some m) st =
  match lookup (cdc_key m) (dbm_table cdc) with
  | Some d => memcpy (memset_zero sizeof_cdc_entry) d (length d)
  | None => Done (memset_zero sizeof_cdc_entry)
  end.
Proof.
  intros Hc Ht Hlt. unfold get_cdc_entry. rewrite Hc, Ht. cbn [strlen bind].
  destruct (Nat.leb_spec CAT_CAT_LEN (length (c_str m))) as [Hge|_]; [lia|].
  rewrite strcpy_zeros by lia. cbn [bind].
  rewrite mk_datum_whole by (apply length_padded; lia).
  reflexivity.
Qed.

(** [add_cdc_entry] reports success only on an open store and for a catalog
    string below the bound. *)
Lemma add_cdc_entry_success (r : cdc_entry) (st st' : state) :
  add_cdc_entry r st = Done (1%Z, st') ->
  exists cdc cdt,
    cdc_dbm_ptr st = Some cdc /\ cdt_dbm_ptr st = Some cdt /\
    length (c_str (catalog r)) < CAT_CAT_LEN.
Proof.
  unfold add_cdc_entry.
  destruct (cdc_dbm_ptr st) as [cdc|]; [|discriminate].
  destruct (cdt_dbm_ptr st) as [cdt|]; [|discriminate].
  cbn [strlen bind].
  destruct (Nat.leb_spec CAT_CAT_LEN (length (c_str (catalog r)))) as [Hge|Hlt];
    [discriminate|].
  intros _. exists cdc, cdt. auto.
Qed.

(** C1: a catalog record [r] of the size of the structure that
    [add_cdc_entry] reports stored is the record [get_cdc_entry] returns for
    the string in [r.catalog]. *)
Theorem add_get_cdc_roundtrip (r : cdc_entry) (st st' : state) :
  length r = sizeof_cdc_entry ->
  is_open st ->
  length (c_str (catalog r)) < CAT_CAT_LEN ->
  add_cdc_entry r st = Done (1%Z, st') ->
  get_cdc_entry (Some (catalog r)) st' = Done r.
Proof.
  intros Hsize _ _ Hadd.
  destruct (add_cdc_entry_success _ _ _ Hadd) as (cdc & cdt & Hc & Ht & Hlt).
  rewrite (add_cdc_entry_open r st cdc cdt Hc Ht Hlt) in Hadd.
  injection Hadd as <-.
  erewrite get_cdc_entry_open; [|reflexivity|exact Ht|exact Hlt].
  cbn [with_table dbm_table]. rewrite lookup_replace.
  rewrite <- Hsize, firstn_all.
  apply memcpy_whole. rewrite length_memset_zero. reflexivity.
Qed.

(** The first [database_initialize] of a process on an empty directory
    opens both tables, empty, and leaves [local_first_call] at 1. *)
Example first_open :
  database_initialize 0 (initial_state empty_fs)
  = (1%Z,
     {| cdc_dbm_ptr := Some {| dbm_file := "cdc_data"; dbm_table := [];
                               dbm_memory := None |};
        cdt_dbm_ptr := Some {| dbm_file := "cdt_data"; dbm_table := [];
                               dbm_memory := None |};
        local_first_call := 1; local_key_datum := None;
        disk := {| fs_files := [("cdt_data.pag"%string, []);
                                ("cdt_data.dir"%string, []);
                                ("cdc_data.pag"%string, []);
                                ("cdc_data.dir"%string, [])];
                   fs_denied := [] |};
        stderr := [] |}).
Proof. reflexivity. Qed.

(** ** Track entries *)

Lemma length_track_text (m : list char) (d : Z) :
  length (track_text m d) = length (c_str m) + 1 + length (itoa d).
Proof. unfold track_text. rewrite length_app. simpl. lia. Qed.

Lemma track_key_fits_dec (m : list char) (d : Z) :
  {track_key_fits m d} + {~ track_key_fits m d}.
Proof. unfold track_key_fits. apply le_dec. Qed.

Lemma length_cdt_key (m : list char) (d : Z) :
  track_key_fits m d -> length (cdt_key m d) = CAT_CAT_LEN + 10.
Proof.
  unfold track_key_fits. intros Hfit. apply length_padded.
  rewrite length_track_text. lia.
Qed.

Lemma sprintf_key (m : list char) (d : Z) :
  track_key_fits m d ->
  sprintf_s_d (memset_zero (CAT_CAT_LEN + 10)) (Some m) d = Done (cdt_key m d).
Proof.
  unfold track_key_fits. intros Hfit. apply sprintf_zeros.
  rewrite length_track_text. lia.
Qed.

Lemma sprintf_key_overflow (m : list char) (d : Z) :
  ~ track_key_fits m d ->
  sprintf_s_d (memset_zero (CAT_CAT_LEN + 10)) (Some m) d = Undefined.
Proof.
  unfold track_key_fits. intros Hfit. apply sprintf_zeros_overflow.
  rewrite length_track_text. lia.
Qed.

(** What the three track functions do once their checks have passed. *)
Lemma get_cdt_entry_open (m : list char) (d : Z) (st : state) (cdc cdt : DBM) :
  cdc_dbm_ptr st = Some cdc -> cdt_dbm_ptr st = Some cdt ->
  length (c_str m) < CAT_CAT_LEN ->
  get_cdt_entry (Some m) d st =
  if track_key_fits_dec m d then
    match dbm_fetch cdt (Some (cdt_key m d)) with
    | Some v => memcpy (memset_zero sizeof_cdt_entry) v (length v)
    | None => Done (memset_zero sizeof_cdt_entry)
    end
  else Undefined.
Proof.
  intros Hc Ht Hlt. unfold get_cdt_entry. rewrite Hc, Ht. cbn [strlen bind].
  destruct (Nat.leb_spec CAT_CAT_LEN (length (c_str m))) as [Hge|_]; [lia|].
  destruct (track_key_fits_dec m d) as [Hfit|Hfit].
  - rewrite sprintf_key by assumption. cbn [bind].
    rewrite mk_datum_whole by (apply length_cdt_key; assumption).
    reflexivity.
  - rewrite sprintf_key_overflow by assumption. reflexivity.
Qed.

Lemma add_cdt_entry_open (r : cdt_entry) (st : state) (cdc cdt : DBM) :
  cdc_dbm_ptr st = Some cdc -> cdt_dbm_ptr st = Some cdt ->
  length (c_str (catalog r)) < CAT_CAT_LEN ->
  add_cdt_entry r st =
  if track_key_fits_dec (catalog r) (track_no r) then
    let '(result, db) :=
      dbm_store cdt (Some (cdt_key (catalog r) (track_no r)))
        (Some (firstn sizeof_cdt_entry r)) DBM_REPLACE in
    Done (if (result =? 0)%Z then 1%Z else 0%Z, set_cdt st db)
  else Undefined.
Proof.
  intros Hc Ht Hlt. unfold add_cdt_entry. rewrite Hc, Ht. cbn [strlen bind].
  destruct (Nat.leb_spec CAT_CAT_LEN (length (c_str (catalog r)))) as [Hge|_];
    [lia|].
  destruct (track_key_fits_dec (catalog r) (track_no r)) as [Hfit|Hfit].
  - rewrite sprintf_key by assumption. cbn [bind].
    rewrite mk_datum_whole by (apply length_cdt_key; assumption).
    unfold mk_datum.
    destruct (dbm_store cdt _ _ _) as [result db].
    destruct (result =? 0)%Z; reflexivity.
  - rewrite sprintf_key_overflow by assumption. reflexivity.
Qed.

Lemma del_cdt_entry_open (m : list char) (d : Z) (st : state) (cdc cdt : DBM) :
  cdc_dbm_ptr st = Some cdc -> cdt_dbm_ptr st = Some cdt ->
  length (c_str m) < CAT_CAT_LEN ->
  del_cdt_entry (Some m) d st =
  if track_key_fits_dec m d then
    let '(result, db) := dbm_delete cdt (Some (cdt_key m d)) in
    Done (if (result =? 0)%Z then 1%Z else 0%Z, set_cdt st db)
  else Undefined.
Proof.
  intros Hc Ht Hlt. unfold del_cdt_entry. rewrite Hc, Ht. cbn [strlen bind].
  destruct (Nat.leb_spec CAT_CAT_LEN (length (c_str m))) as [Hge|_]; [lia|].
  destruct (track_key_fits_dec m d) as [Hfit|Hfit].
  - rewrite sprintf_key by assumption. cbn [bind].
    rewrite mk_datum_whole by (apply length_cdt_key; assumption).
    destruct (dbm_delete cdt _) as [result db].
    destruct (result =? 0)%Z; reflexivity.
  - rewrite sprintf_key_overflow by assumption. reflexivity.
Qed.

Lemma add_cdt_entry_success (r : cdt_entry) (st st' : state) :
  add_cdt_entry r st = Done (1%Z, st') ->
  exists cdc cdt,
    cdc_dbm_ptr st = Some cdc /\ cdt_dbm_ptr st = Some cdt /\
    length (c_str (catalog r)) < CAT_CAT_LEN.
Proof.
  unfold add_cdt_entry.
  destruct (cdc_dbm_ptr st) as [cdc|]; [|discriminate].
  destruct (cdt_dbm_ptr st) as [cdt|]; [|discriminate].
  cbn [strlen bind].
  destruct (Nat.leb_spec CAT_CAT_LEN (length (c_str (catalog r)))) as [Hge|Hlt];
    [discriminate|].
  intros _. exists cdc, cdt. auto.
Qed.

Lemma dbm_store_replace (db : DBM) (k v : list char) :
  dbm_store db (Some k) (Some v) DBM_REPLACE
  = (0%Z, with_table db (replace k v (dbm_table db))).
Proof.
  unfold dbm_store. destruct (lookup k (dbm_table db)); reflexivity.
Qed.

(** C9: a track record [r] of the size of the structure that
    [add_cdt_entry] reports stored is the record [get_cdt_entry] returns for
    the string in [r.catalog] and the number in [r.track_no]. *)
Theorem add_get_cdt_roundtrip (r : cdt_entry) (st st' : state) :
  length r = sizeof_cdt_entry ->
  is_open st ->
  length (c_str (catalog r)) < CAT_CAT_LEN ->
  add_cdt_entry r st = Done (1%Z, st') ->
  get_cdt_entry (Some (catalog r)) (track_no r) st' = Done r.
Proof.
  intros Hsize _ _ Hadd.
  destruct (add_cdt_entry_success _ _ _ Hadd) as (cdc & cdt & Hc & Ht & Hlt).
  rewrite (add_cdt_entry_open r st cdc cdt Hc Ht Hlt) in Hadd.
  destruct (track_key_fits_dec (catalog r) (track_no r)) as [Hfit|Hfit];
    [|discriminate].
  rewrite dbm_store_replace in Hadd. cbn [Z.eqb] in Hadd.
  injection Hadd as <-.
  erewrite get_cdt_entry_open; [|exact Hc|reflexivity|exact Hlt].
  destruct (track_key_fits_dec (catalog r) (track_no r)) as [_|Hno];
    [|contradiction].
  cbn [dbm_fetch with_table dbm_table]. rewrite lookup_replace.
  rewrite <- Hsize, firstn_all.
  apply memcpy_whole. rewrite length_memset_zero. reflexivity.
Qed.

(** ** Deleting *)

Lemma del_cdc_entry_open (m : list char) (st : state) (cdc cdt : DBM) :
  cdc_dbm_ptr st = Some cdc -> cdt_dbm_ptr st = Some cdt ->
  length (c_str m) < CAT_CAT_LEN ->
  del_cdc_entry (Some m) st =
  let '(result, db) := dbm_delete cdc (Some (cdc_key m)) in
  Done (if (result =? 0)%Z then 1%Z else 0%Z, set_cdc st db).
Proof.
  intros Hc Ht Hlt. unfold del_cdc_entry. rewrite Hc, Ht. cbn [strlen bind].
  destruct (Nat.leb_spec CAT_CAT_LEN (length (c_str m))) as [Hge|_]; [lia|].
  rewrite strcpy_zeros by lia. cbn [bind].
  rewrite mk_datum_whole by (apply length_padded; lia).
  fold (cdc_key m).
  destruct (dbm_delete cdc _) as [result db].
  destruct (result =? 0)%Z; reflexivity.
Qed.

Lemma is_open_inv (st : state) :
  is_open st ->
  exists cdc cdt, cdc_dbm_ptr st = Some cdc /\ cdt_dbm_ptr st = Some cdt.
Proof.
  intros [Hc Ht].
  destruct (cdc_dbm_ptr st) as [cdc|]; [|contradiction].
  destruct (cdt_dbm_ptr st) as [cdt|]; [|contradiction].
  exists cdc, cdt. auto.
Qed.

(** C4: on an open store and for a string [k] below the bound,
    [del_cdc_entry] returns 1 or 0; it returns 1 exactly when a record was
    stored under the key of [k], and after it has returned 1
    [get_cdc_entry] returns the empty record for [k]. *)
Theorem del_cdc_entry_then_get (k : list char) (st : state) :
  is_open st ->
  length (c_str k) < CAT_CAT_LEN ->
  exists result st',
    del_cdc_entry (Some k) st = Done (result, st') /\
    (result = 1%Z \/ result = 0%Z) /\
    (result = 1%Z <-> cdc_stored k st) /\
    (result = 1%Z ->
     get_cdc_entry (Some k) st' = Done (memset_zero sizeof_cdc_entry)).
Proof.
  intros Hopen Hlt.
  destruct (is_open_inv st Hopen) as (cdc & cdt & Hc & Ht).
  rewrite (del_cdc_entry_open k st cdc cdt Hc Ht Hlt).
  unfold cdc_stored, dbm_delete, dbm_fetch. rewrite Hc.
  destruct (lookup (cdc_key k) (dbm_table cdc)) as [v|] eqn:Hv.
  - eexists _, _. split; [reflexivity|]. cbn [Z.eqb].
    split; [left; reflexivity|]. split.
    + split; [intros _|reflexivity].
      exists cdc. split; [reflexivity|]. rewrite Hv. discriminate.
    + intros _.
      erewrite get_cdc_entry_open; [|reflexivity|exact Ht|exact Hlt].
      cbn [dbm_table]. rewrite lookup_remove. reflexivity.
  - eexists _, _. split; [reflexivity|]. cbn [Z.eqb].
    split; [right; reflexivity|]. split.
    + split; [discriminate|].
      intros (db & Hdb & Hin). injection Hdb as <-.
      rewrite Hv in Hin. contradiction.
    + discriminate.
Qed.

(** ** Checks of the arguments *)

(** X8: on a closed store every function returns the empty record or 0 and
    leaves the state as it is, whatever its arguments. *)
Lemma closed_store_guard (st : state) :
  cdc_dbm_ptr st = None \/ cdt_dbm_ptr st = None ->
  (forall p, get_cdc_entry p st = Done (memset_zero sizeof_cdc_entry)) /\
  (forall p d, get_cdt_entry p d st = Done (memset_zero sizeof_cdt_entry)) /\
  (forall r, add_cdc_entry r st = Done (0%Z, st)) /\
  (forall r, add_cdt_entry r st = Done (0%Z, st)) /\
  (forall p, del_cdc_entry p st = Done (0%Z, st)) /\
  (forall p d, del_cdt_entry p d st = Done (0%Z, st)) /\
  (forall fuel p f,
      search_cdc_entry fuel p f st
      = Done (memset_zero sizeof_cdc_entry, f, st)).
Proof.
  intros Hclosed.
  unfold get_cdc_entry, get_cdt_entry, add_cdc_entry, add_cdt_entry,
    del_cdc_entry, del_cdt_entry, search_cdc_entry.
  destruct Hclosed as [-> | ->]; [|destruct (cdc_dbm_ptr st)];
    repeat split; reflexivity.
Qed.


(** X10: a null pointer makes the two get functions and the search return
    the empty record and leave the state as it is. *)
Lemma null_argument_guard (st : state) :
  get_cdc_entry None st = Done (memset_zero sizeof_cdc_entry) /\
  (forall d, get_cdt_entry None d st = Done (memset_zero sizeof_cdt_entry)) /\
  (forall fuel f,
      search_cdc_entry fuel None f st
      = Done (memset_zero sizeof_cdc_entry, f, st)) /\
  (forall fuel p,
      search_cdc_entry fuel p None st
      = Done (memset_zero sizeof_cdc_entry, None, st)).
Proof.
  unfold get_cdc_entry, get_cdt_entry, search_cdc_entry.
  destruct (cdc_dbm_ptr st), (cdt_dbm_ptr st); repeat split; intros;
    try reflexivity; destruct p; reflexivity.
Qed.

(** C3: on an open store the two delete functions hand a null catalog
    pointer to [strlen]: the call has no defined result, where the get
    functions and the search return the empty record. *)
Theorem del_null_catalog_undefined (st : state) :
  is_open st ->
  del_cdc_entry None st = Undefined /\
  (forall d, del_cdt_entry None d st = Undefined).
Proof.
  intros Hopen.
  destruct (is_open_inv st Hopen) as (cdc & cdt & Hc & Ht).
  unfold del_cdc_entry, del_cdt_entry. rewrite Hc, Ht.
  split; [|intros d]; reflexivity.
Qed.

(** ** The key of a track *)

(** C5: for the three track functions, on an open store and a catalog
    string below the bound whose key text fits, the key handed to the engine
    is the text "<catalog> <track_no>" followed by zero bytes up to
    [CAT_CAT_LEN + 10] bytes, the size of the key buffer, and all of the
    buffer is the key. *)
Theorem track_key_is_padded_text (m : list char) (d : Z) (st : state)
  (cdc cdt : DBM) :
  cdc_dbm_ptr st = Some cdc -> cdt_dbm_ptr st = Some cdt ->
  length (c_str m) < CAT_CAT_LEN ->
  track_key_fits m d ->
  let text := c_str m ++ " "%char :: itoa d in
  let key := text ++ repeat NUL (CAT_CAT_LEN + 10 - length text) in
  length key = CAT_CAT_LEN + 10 /\
  get_cdt_entry (Some m) d st =
    match dbm_fetch cdt (Some key) with
    | Some v => memcpy (memset_zero sizeof_cdt_entry) v (length v)
    | None => Done (memset_zero sizeof_cdt_entry)
    end /\
  del_cdt_entry (Some m) d st =
    (let '(result, db) := dbm_delete cdt (Some key) in
     Done (if (result =? 0)%Z then 1%Z else 0%Z, set_cdt st db)) /\
  (forall r : cdt_entry,
      c_str (catalog r) = c_str m -> track_no r = d ->
      add_cdt_entry r st =
      (let '(result, db) :=
         dbm_store cdt (Some key) (Some (firstn sizeof_cdt_entry r))
           DBM_REPLACE in
       Done (if (result =? 0)%Z then 1%Z else 0%Z, set_cdt st db))).
Proof.
  intros Hc Ht Hlt Hfit text key.
  change key with (cdt_key m d).
  split; [apply length_cdt_key; exact Hfit|].
  split; [|split].
  - rewrite (get_cdt_entry_open m d st cdc cdt Hc Ht Hlt).
    destruct (track_key_fits_dec m d); [reflexivity|contradiction].
  - rewrite (del_cdt_entry_open m d st cdc cdt Hc Ht Hlt).
    destruct (track_key_fits_dec m d); [reflexivity|contradiction].
  - intros r Hcat Hno.
    assert (Hkey : cdt_key (catalog r) (track_no r) = cdt_key m d).
    { unfold cdt_key, track_text. rewrite Hcat, Hno. reflexivity. }
    assert (Hfit' : track_key_fits (catalog r) (track_no r)).
    { unfold track_key_fits. rewrite Hcat, Hno. exact Hfit. }
    rewrite (add_cdt_entry_open r st cdc cdt Hc Ht) by (rewrite Hcat; exact Hlt).
    destruct (track_key_fits_dec (catalog r) (track_no r)); [|contradiction].
    rewrite Hkey. reflexivity.
Qed.

(** C10: the track functions do not look at [track_no] before they print
    the key.  The print stays inside the buffer of [CAT_CAT_LEN + 10] bytes
    exactly when the length of the catalog string plus one plus the length
    of the decimal text of [track_no] is at most [CAT_CAT_LEN + 9]; otherwise
    each of the three functions writes past the buffer, which happens for a
    catalog string one short of the bound and a number of ten or more
    characters. *)
Theorem track_key_print_bound (m : list char) (d : Z) (st : state) :
  is_open st ->
  length (c_str m) < CAT_CAT_LEN ->
  (sprintf_s_d (memset_zero (CAT_CAT_LEN + 10)) (Some m) d <> Undefined
   <-> length (c_str m) + 1 + length (itoa d) <= CAT_CAT_LEN + 9) /\
  (CAT_CAT_LEN + 9 < length (c_str m) + 1 + length (itoa d) ->
   get_cdt_entry (Some m) d st = Undefined /\
   del_cdt_entry (Some m) d st = Undefined /\
   (forall r : cdt_entry,
       c_str (catalog r) = c_str m -> track_no r = d ->
       add_cdt_entry r st = Undefined)) /\
  (length (c_str m) + 1 = CAT_CAT_LEN -> 10 <= length (itoa d) ->
   sprintf_s_d (memset_zero (CAT_CAT_LEN + 10)) (Some m) d = Undefined).
Proof.
  intros Hopen Hlt.
  destruct (is_open_inv st Hopen) as (cdc & cdt & Hc & Ht).
  split; [|split].
  - fold (track_key_fits m d).
    destruct (track_key_fits_dec m d) as [Hfit|Hfit].
    + rewrite sprintf_key by assumption. split; [auto|discriminate].
    + rewrite sprintf_key_overflow by assumption. split; [congruence|tauto].
  - intros Hover.
    assert (Hno : ~ track_key_fits m d) by (unfold track_key_fits; lia).
    split; [|split].
    + rewrite (get_cdt_entry_open m d st cdc cdt Hc Ht Hlt).
      destruct (track_key_fits_dec m d); [contradiction|reflexivity].
    + rewrite (del_cdt_entry_open m d st cdc cdt Hc Ht Hlt).
      destruct (track_key_fits_dec m d); [contradiction|reflexivity].
    + intros r Hcat Hd.
      rewrite (add_cdt_entry_open r st cdc cdt Hc Ht) by (rewrite Hcat; exact Hlt).
      destruct (track_key_fits_dec (catalog r) (track_no r)) as [Hfit|_];
        [|reflexivity].
      unfold track_key_fits in Hfit. rewrite Hcat, Hd in Hfit. lia.
  - intros Hnear Hlong. apply sprintf_key_overflow.
    unfold track_key_fits. lia.
Qed.

(** ** Opening and closing *)

Lemma dbm_open_denied (fs : filesystem) (file : string) (flags mode : Z) :
  In file (fs_denied fs) -> dbm_open fs file flags mode = (fs, None).
Proof.
  intros Hin. unfold dbm_open.
  replace (existsb (String.eqb file) (fs_denied fs)) with true; [reflexivity|].
  symmetry. apply existsb_exists. exists file.
  split; [exact Hin | apply String.eqb_refl].
Qed.

Lemma dbm_open_fs_denied (fs : filesystem) (file : string) (flags mode : Z) :
  fs_denied (fst (dbm_open fs file flags mode)) = fs_denied fs.
Proof.
  unfold dbm_open.
  destruct (existsb _ _); [reflexivity|].
  destruct (fs_lookup _ _), (fs_lookup _ _); try reflexivity.
  destruct (Z.testbit flags 6); reflexivity.
Qed.

(** A database whose two files are absent opens empty, if it opens. *)
Lemma dbm_open_absent (fs : filesystem) (file : string) (flags mode : Z) :
  fs_lookup (pag_of file) (fs_files fs) = None ->
  fs_lookup (dir_of file) (fs_files fs) = None ->
  forall db, snd (dbm_open fs file flags mode) = Some db -> dbm_table db = [].
Proof.
  intros Hp Hd db. unfold dbm_open. rewrite Hp, Hd.
  destruct (existsb _ _); [discriminate|].
  destruct (Z.testbit flags 6); [|discriminate].
  cbn [snd]. intros E. injection E as <-. reflexivity.
Qed.

Lemma fs_lookup_remove_same (name : string) (l : list (string * table)) :
  fs_lookup name (fs_remove name l) = None.
Proof.
  induction l as [|[n f] l IH]; simpl; [reflexivity|].
  destruct (String.eqb n name) eqn:E; simpl; [exact IH|].
  rewrite E. exact IH.
Qed.

Lemma fs_lookup_remove_none (name name' : string) (l : list (string * table)) :
  fs_lookup name l = None -> fs_lookup name (fs_remove name' l) = None.
Proof.
  induction l as [|[n f] l IH]; simpl; [reflexivity|].
  destruct (String.eqb n name) eqn:E; [discriminate|].
  intros Hl. destruct (String.eqb n name'); simpl; [auto|].
  rewrite E. auto.
Qed.

Lemma fs_lookup_write_other (name name' : string) (f : table)
  (l : list (string * table)) :
  String.eqb name' name = false ->
  fs_lookup name l = None -> fs_lookup name (fs_write name' f l) = None.
Proof.
  intros Hne Hl. unfold fs_write. simpl. rewrite Hne.
  apply fs_lookup_remove_none. exact Hl.
Qed.

(** The files of the file system once [database_initialize] has closed the
    open handles and, for a new database, removed the four files. *)
Lemma unlinked_absent (fs : filesystem) :
  let fs' := unlink CDT_FILE_DIR
               (unlink CDT_FILE_PAG
                  (unlink CDC_FILE_DIR (unlink CDC_FILE_PAG fs))) in
  fs_lookup CDC_FILE_PAG (fs_files fs') = None /\
  fs_lookup CDC_FILE_DIR (fs_files fs') = None /\
  fs_lookup CDT_FILE_PAG (fs_files fs') = None /\
  fs_lookup CDT_FILE_DIR (fs_files fs') = None.
Proof.
  cbn [unlink fs_files].
  repeat split;
    repeat first [ apply fs_lookup_remove_same
                 | apply fs_lookup_remove_none ].
Qed.

(** C7: [database_initialize] returns 1 with both handles open or 0 with
    both handles null, the latter whenever one of the two tables cannot be
    opened; [database_close] leaves both handles null. *)
Theorem handles_transition_together (new_database : Z) (st : state) :
  ((exists st', database_initialize new_database st = (1%Z, st') /\
                is_open st') \/
   (exists st', database_initialize new_database st = (0%Z, st') /\
                is_closed st')) /\
  (In CDC_FILE_BASE (fs_denied (disk st)) \/
   In CDT_FILE_BASE (fs_denied (disk st)) ->
   exists st', database_initialize new_database st = (0%Z, st') /\
               is_closed st') /\
  is_closed (database_close st).
Proof.
  unfold database_initialize.
  set (fs0 := if (new_database =? 0)%Z then _ else _).
  assert (Hden : fs_denied fs0 = fs_denied (disk st)).
  { subst fs0. destruct (new_database =? 0)%Z;
      destruct (cdc_dbm_ptr st), (cdt_dbm_ptr st); reflexivity. }
  split; [|split].
  - destruct (dbm_open fs0 CDC_FILE_BASE _ 420) as [fs1 [cdc|]];
      destruct (dbm_open fs1 CDT_FILE_BASE _ 420) as [fs2 [cdt|]].
    + left. eexists. split; [reflexivity|]. split; discriminate.
    + right. eexists. split; [reflexivity|]. split; reflexivity.
    + right. eexists. split; [reflexivity|]. split; reflexivity.
    + right. eexists. split; [reflexivity|]. split; reflexivity.
  - intros Hin.
    pose proof (dbm_open_fs_denied fs0 CDC_FILE_BASE (Z.lor O_CREAT O_RDWR) 420)
      as Hden1.
    destruct Hin as [Hin|Hin].
    + rewrite dbm_open_denied by (rewrite Hden; exact Hin).
      destruct (dbm_open fs0 CDT_FILE_BASE _ 420) as [fs2 [cdt|]];
        eexists; (split; [reflexivity|]); split; reflexivity.
    + destruct (dbm_open fs0 CDC_FILE_BASE _ 420) as [fs1 cdc].
      cbn [fst] in Hden1.
      rewrite dbm_open_denied by (rewrite Hden1, Hden; exact Hin).
      destruct cdc; eexists; (split; [reflexivity|]); split; reflexivity.
  - split; reflexivity.
Qed.

Lemma dbm_open_keeps_absent (fs : filesystem) (file name : string)
  (flags mode : Z) :
  String.eqb (pag_of file) name = false ->
  String.eqb (dir_of file) name = false ->
  fs_lookup name (fs_files fs) = None ->
  fs_lookup name (fs_files (fst (dbm_open fs file flags mode))) = None.
Proof.
  intros Hp Hd Hl. unfold dbm_open.
  destruct (existsb _ _); [exact Hl|].
  destruct (fs_lookup (pag_of file) _), (fs_lookup (dir_of file) _);
    try exact Hl.
  destruct (Z.testbit flags 6); [|exact Hl].
  cbn [fst fs_files].
  apply fs_lookup_write_other; [exact Hp|].
  apply fs_lookup_write_other; [exact Hd|exact Hl].
Qed.

Lemma get_cdc_entry_empty_table (st : state) (cdc : DBM) :
  cdc_dbm_ptr st = Some cdc -> dbm_table cdc = [] ->
  forall p, get_cdc_entry p st = Done (memset_zero sizeof_cdc_entry).
Proof.
  intros Hc Hempty p. unfold get_cdc_entry. rewrite Hc.
  destruct (cdt_dbm_ptr st); [|reflexivity].
  destruct p as [m|]; [|reflexivity]. cbn [strlen bind].
  destruct (Nat.leb_spec CAT_CAT_LEN (length (c_str m))) as [Hge|Hlt];
    [reflexivity|].
  rewrite strcpy_zeros by lia. cbn [bind].
  unfold mk_datum, dbm_fetch. rewrite Hempty. reflexivity.
Qed.

Lemma get_cdt_entry_empty_table (st : state) (cdt : DBM) :
  cdt_dbm_ptr st = Some cdt -> dbm_table cdt = [] ->
  forall p d,
    (forall m, p = Some m -> length (c_str m) < CAT_CAT_LEN ->
               track_key_fits m d) ->
    get_cdt_entry p d st = Done (memset_zero sizeof_cdt_entry).
Proof.
  intros Ht Hempty p d Hfit. unfold get_cdt_entry. rewrite Ht.
  destruct (cdc_dbm_ptr st); [|reflexivity].
  destruct p as [m|]; [|reflexivity]. cbn [strlen bind].
  destruct (Nat.leb_spec CAT_CAT_LEN (length (c_str m))) as [Hge|Hlt];
    [reflexivity|].
  rewrite sprintf_key by (apply Hfit; [reflexivity|exact Hlt]). cbn [bind].
  unfold mk_datum, dbm_fetch. rewrite Hempty. reflexivity.
Qed.

(** C8: whatever the state and the files before, once
    [database_initialize] has returned 1 for a non-zero [new_database], both
    tables are empty: [get_cdc_entry] returns the empty record for every
    argument, and so does [get_cdt_entry] for every argument whose key text
    fits the key buffer. *)
Theorem new_database_is_empty (new_database : Z) (st st' : state) :
  new_database <> 0%Z ->
  database_initialize new_database st = (1%Z, st') ->
  (exists cdc cdt,
      cdc_dbm_ptr st' = Some cdc /\ cdt_dbm_ptr st' = Some cdt /\
      dbm_table cdc = [] /\ dbm_table cdt = []) /\
  (forall p, get_cdc_entry p st' = Done (memset_zero sizeof_cdc_entry)) /\
  (forall p d,
      (forall m, p = Some m -> length (c_str m) < CAT_CAT_LEN ->
                 track_key_fits m d) ->
      get_cdt_entry p d st' = Done (memset_zero sizeof_cdt_entry)).
Proof.
  intros Hnew Hinit.
  assert (Htables : exists cdc cdt,
             cdc_dbm_ptr st' = Some cdc /\ cdt_dbm_ptr st' = Some cdt /\
             dbm_table cdc = [] /\ dbm_table cdt = []).
  { revert Hinit. unfold database_initialize.
    apply Z.eqb_neq in Hnew. rewrite Hnew.
    set (fs := match cdt_dbm_ptr st with Some _ => _ | None => _ end).
    destruct (unlinked_absent fs) as (Hcp & Hcd & Htp & Htd).
    set (fs0 := unlink CDT_FILE_DIR _) in *.
    pose proof (dbm_open_absent fs0 CDC_FILE_BASE (Z.lor O_CREAT O_RDWR) 420
                  Hcp Hcd) as Hcdc.
    pose proof (dbm_open_keeps_absent fs0 CDC_FILE_BASE CDT_FILE_PAG
                  (Z.lor O_CREAT O_RDWR) 420 eq_refl eq_refl Htp) as Htp1.
    pose proof (dbm_open_keeps_absent fs0 CDC_FILE_BASE CDT_FILE_DIR
                  (Z.lor O_CREAT O_RDWR) 420 eq_refl eq_refl Htd) as Htd1.
    destruct (dbm_open fs0 CDC_FILE_BASE _ 420) as [fs1 cdc].
    cbn [fst snd] in Hcdc, Htp1, Htd1.
    pose proof (dbm_open_absent fs1 CDT_FILE_BASE (Z.lor O_CREAT O_RDWR) 420
                  Htp1 Htd1) as Hcdt.
    destruct (dbm_open fs1 CDT_FILE_BASE _ 420) as [fs2 cdt].
    cbn [snd] in Hcdt.
    destruct cdc as [cdc|]; [|discriminate].
    destruct cdt as [cdt|]; [|discriminate].
    intros E. injection E as <-.
    exists cdc, cdt. repeat split; auto. }
  split; [exact Htables|].
  destruct Htables as (cdc & cdt & Hc & Ht & Hce & Hte).
  split.
  - apply (get_cdc_entry_empty_table st' cdc Hc Hce).
  - apply (get_cdt_entry_empty_table st' cdt Ht Hte).
Qed.

(** ** The search *)

Lemma zeros_catalog_head (n : nat) :
  is_nul (nth 0 (catalog (memset_zero n)) NUL) = true.
Proof.
  unfold catalog. rewrite Nat.add_1_r. destruct n; reflexivity.
Qed.

Lemma contains_head (s : list char) (entry : cdc_entry) :
  c_str s <> [] -> contains s entry = true ->
  is_nul (nth 0 (catalog entry) NUL) = false.
Proof.
  intros Hs Hc. apply c_str_head. intros Hnil.
  assert (Hocc : occurs_in (c_str s) (c_str (catalog entry))).
  { apply strstr_spec. unfold contains in Hc.
    destruct (strstr (catalog entry) s); [discriminate|discriminate]. }
  destruct Hocc as (pre & post & E). rewrite Hnil in E.
  destruct pre; [|discriminate]. simpl in E.
  destruct (c_str s); [congruence|discriminate].
Qed.

(** One pass through the loop body at a key whose entry contains the search
    string: the loop ends with that entry. *)
Lemma search_loop_match (fuel : nat) (cdc : DBM) (s k v : list char)
  (data : datum) :
  lookup k (dbm_table cdc) = Some v ->
  length v = sizeof_cdc_entry ->
  c_str s <> [] -> contains s v = true ->
  search_loop (S fuel) cdc s (Some k) data (memset_zero sizeof_cdc_entry)
  = Done (cdc, Some k, v).
Proof.
  intros Hl Hsize Hs Hc. cbn [search_loop dbm_fetch]. rewrite Hl.
  rewrite memcpy_whole by (rewrite length_memset_zero; exact Hsize).
  cbn [bind]. pose proof (contains_head s v Hs Hc) as Hhead.
  unfold contains in Hc. destruct (strstr (catalog v) s); [|discriminate].
  cbn [bind]. rewrite Hhead. reflexivity.
Qed.

(** One pass at a key whose entry does not contain the search string: the
    cursor moves on and the loop goes round again unless the table is
    exhausted. *)
Lemma search_loop_skip (fuel : nat) (cdc : DBM) (s k v : list char)
  (data : datum) :
  lookup k (dbm_table cdc) = Some v ->
  length v = sizeof_cdc_entry ->
  contains s v = false ->
  search_loop (S fuel) cdc s (Some k) data (memset_zero sizeof_cdc_entry)
  = match fst (dbm_nextkey cdc) with
    | Some k' =>
        search_loop fuel (snd (dbm_nextkey cdc)) s (Some k') (Some v)
          (memset_zero sizeof_cdc_entry)
    | None =>
        Done (snd (dbm_nextkey cdc), None, memset_zero sizeof_cdc_entry)
    end.
Proof.
  intros Hl Hsize Hc. cbn [search_loop dbm_fetch]. rewrite Hl.
  rewrite memcpy_whole by (rewrite length_memset_zero; exact Hsize).
  cbn [bind]. unfold contains in Hc.
  destruct (strstr (catalog v) s); [discriminate|].
  destruct (dbm_nextkey cdc) as [[k'|] cdc']; cbn [bind fst snd].
  - rewrite zeros_catalog_head. reflexivity.
  - reflexivity.
Qed.

(** The loop does not end at an entry that is taken for a match and has an
    empty catalog string, which an empty search string brings about: the
    cursor stays where it is.  The statements on the scan below are for
    search strings that are not empty. *)
Lemma search_loop_empty_catalog (fuel : nat) (cdc : DBM) (s k v : list char)
  (data : datum) (entry : cdc_entry) :
  lookup k (dbm_table cdc) = Some v ->
  length entry = length v ->
  c_str s = [] ->
  is_nul (nth 0 (catalog v) NUL) = true ->
  search_loop fuel cdc s (Some k) data entry = OutOfFuel.
Proof.
  intros Hl Hlen Hs Hnul. revert data entry Hlen.
  induction fuel as [|fuel IH]; intros data entry Hlen; [reflexivity|].
  cbn [search_loop dbm_fetch]. rewrite Hl.
  rewrite memcpy_whole by (symmetry; exact Hlen). cbn [bind].
  unfold strstr. rewrite Hs.
  destruct (c_str (catalog v)); cbn [find_sub prefix_b bind];
    rewrite Hnul; apply IH; reflexivity.
Qed.

(** The result of the loop started at the key of the first pair of [suf],
    a final part of the table. *)
Lemma search_loop_finds (s : list char) (db : DBM) :
  c_str s <> [] ->
  NoDup (map fst (dbm_table db)) ->
  cdc_sized (dbm_table db) ->
  forall (suf pre : table) (fuel : nat) (data : datum),
    dbm_table db = pre ++ suf ->
    length suf < fuel ->
    search_loop fuel (set_memory db (hd_key suf)) s (hd_key suf) data
      (memset_zero sizeof_cdc_entry)
    = Done (set_memory db (found_key s suf), found_key s suf,
            found_entry s suf).
Proof.
  intros Hs Hnd Hsized.
  induction suf as [|[k v] suf IH]; intros pre fuel data Ht Hfuel;
    (destruct fuel as [|fuel]; [simpl in Hfuel; lia|]).
  - reflexivity.
  - assert (Hnot : ~ In k (map fst pre))
      by (apply (NoDup_keys_app k v pre suf); rewrite <- Ht; exact Hnd).
    assert (Hl : lookup k (dbm_table (set_memory db (Some k))) = Some v)
      by (cbn [set_memory dbm_table]; rewrite Ht;
          apply lookup_app_notin; exact Hnot).
    assert (Hsize : length v = sizeof_cdc_entry).
    { unfold cdc_sized in Hsized. rewrite Ht, Forall_forall in Hsized.
      apply (Hsized (k, v)). apply in_or_app. right. left. reflexivity. }
    unfold found_key, found_entry. cbn [hd_key first_match find snd].
    destruct (contains s v) eqn:Hc.
    + cbn [option_map fst snd].
      apply search_loop_match; assumption.
    + rewrite (search_loop_skip fuel _ s k v data Hl Hsize Hc).
      unfold dbm_nextkey. cbn [set_memory dbm_memory dbm_table fst snd].
      rewrite Ht, (next_after_app k v pre suf Hnot).
      specialize (IH (pre ++ [(k, v)]) fuel (Some v)).
      rewrite <- app_assoc in IH. specialize (IH Ht).
      destruct suf as [|[k' v'] suf].
      * reflexivity.
      * cbn [hd_key] in IH |- *. apply IH. simpl in Hfuel |- *. lia.
Qed.

Lemma next_after_hd (k : list char) (t : table) :
  next_after k t = hd_key (after k t).
Proof.
  induction t as [|[k' v'] t IH]; simpl; [reflexivity|].
  destruct (key_eqb k' k); [|exact IH].
  destruct t as [|[k'' v''] t]; reflexivity.
Qed.

Lemma after_suffix (k : list char) (t : table) :
  exists pre, t = pre ++ after k t.
Proof.
  induction t as [|[k' v'] t [pre IH]]; simpl.
  - exists []. reflexivity.
  - destruct (key_eqb k' k).
    + exists [(k', v')]. reflexivity.
    + exists ((k', v') :: pre). simpl. rewrite <- IH. reflexivity.
Qed.

Lemma after_app (k v : list char) (pre suf : table) :
  ~ In k (map fst pre) -> after k (pre ++ (k, v) :: suf) = suf.
Proof.
  induction pre as [|[k' v'] pre IH]; simpl; intros Hnot.
  - rewrite key_eqb_refl. reflexivity.
  - destruct (key_eqb k' k) eqn:E.
    + apply key_eqb_eq in E. tauto.
    + apply IH. tauto.
Qed.

Lemma dbm_nextkey_remaining (db : DBM) :
  dbm_nextkey db
  = (hd_key (remaining db), set_memory db (hd_key (remaining db))).
Proof.
  unfold dbm_nextkey, remaining.
  destruct (dbm_memory db) as [k|]; [|reflexivity].
  rewrite next_after_hd. reflexivity.
Qed.

Lemma remaining_suffix (db : DBM) :
  exists pre, dbm_table db = pre ++ remaining db.
Proof.
  unfold remaining. destruct (dbm_memory db) as [k|].
  - apply after_suffix.
  - exists (dbm_table db). rewrite app_nil_r. reflexivity.
Qed.

Lemma first_match_split (s : list char) (suf : table) (k v : list char) :
  first_match s suf = Some (k, v) ->
  exists a b, suf = a ++ (k, v) :: b /\
              matching s suf = v :: matching s b.
Proof.
  unfold first_match, matching.
  induction suf as [|[k' v'] suf IH]; simpl; [discriminate|].
  destruct (contains s v') eqn:Hc.
  - intros E. injection E as -> ->. exists [], suf. auto.
  - intros E. destruct (IH E) as (a & b & -> & Hm).
    exists ((k', v') :: a), b. auto.
Qed.

Lemma first_match_none (s : list char) (suf : table) :
  first_match s suf = None -> matching s suf = [].
Proof.
  unfold first_match, matching.
  induction suf as [|[k' v'] suf IH]; simpl; [reflexivity|].
  destruct (contains s v'); [discriminate|exact IH].
Qed.

(** A call that passes the checks and starts or resumes the scan at the
    pairs [suf]: it returns the first entry among them that contains the
    search string, or the empty entry, and leaves the caller's flag at 0. *)
Lemma search_cdc_entry_from (fuel : nat) (s : list char) (v : Z)
  (st : state) (db cdt : DBM) (suf pre : table) :
  cdc_dbm_ptr st = Some db -> cdt_dbm_ptr st = Some cdt ->
  length (c_str s) < CAT_CAT_LEN -> c_str s <> [] ->
  NoDup (map fst (dbm_table db)) -> cdc_sized (dbm_table db) ->
  dbm_table db = pre ++ suf -> length suf < fuel ->
  (if (local_first_call st =? 0)%Z && (v =? 0)%Z
   then remaining db else dbm_table db) = suf ->
  search_cdc_entry fuel (Some s) (Some v) st
  = Done (found_entry s suf, Some 0%Z, search_state st db (found_key s suf)).
Proof.
  intros Hc Ht Hlt Hs Hnd Hsized Htab Hfuel Hsuf.
  pose proof (search_loop_finds s db Hs Hnd Hsized suf pre fuel None Htab Hfuel)
    as Hloop.
  unfold search_cdc_entry, search_state. rewrite Hc, Ht. cbn [strlen bind].
  destruct (Nat.leb_spec CAT_CAT_LEN (length (c_str s))) as [Hge|_]; [lia|].
  destruct (local_first_call st =? 0)%Z eqn:Hlfc.
  - destruct (v =? 0)%Z eqn:Hv; cbn [andb] in Hsuf.
    + rewrite dbm_nextkey_remaining, Hsuf, Hloop. cbn [bind].
      apply Z.eqb_eq in Hlfc, Hv. rewrite Hlfc, Hv. reflexivity.
    + change (dbm_firstkey db)
        with (hd_key (dbm_table db), set_memory db (hd_key (dbm_table db))).
      rewrite Hsuf, Hloop. cbn [bind].
      apply Z.eqb_eq in Hlfc. rewrite Hlfc. reflexivity.
  - cbn [andb] in Hsuf. cbn [Z.eqb].
    change (dbm_firstkey db)
      with (hd_key (dbm_table db), set_memory db (hd_key (dbm_table db))).
    rewrite Hsuf, Hloop. reflexivity.
Qed.

(** Successive calls, the first of which starts or resumes the scan at the
    pairs [suf]: one call for each entry among them that contains the search
    string, in their order, and one more that returns the empty entry. *)
Lemma search_calls_from (fuel : nat) (s : list char) (cdt : DBM) (t : table) :
  length (c_str s) < CAT_CAT_LEN -> c_str s <> [] ->
  NoDup (map fst t) -> cdc_sized t -> length t < fuel ->
  forall (n : nat) (suf pre : table) (v : Z) (st : state) (db : DBM),
    length suf <= n ->
    cdc_dbm_ptr st = Some db -> cdt_dbm_ptr st = Some cdt ->
    dbm_table db = t -> t = pre ++ suf ->
    (if (local_first_call st =? 0)%Z && (v =? 0)%Z
     then remaining db else dbm_table db) = suf ->
    exists st',
      search_calls (length (matching s suf) + 1) fuel (Some s) (Some v) st
      = Done (matching s suf ++ [memset_zero sizeof_cdc_entry], Some 0%Z, st').
Proof.
  intros Hlt Hs Hnd Hsized Hfuel.
  induction n as [|n IH]; intros suf pre v st db Hlen Hc Ht Htab Hpre Hsuf;
    (assert (Hcall :
       search_cdc_entry fuel (Some s) (Some v) st
       = Done (found_entry s suf, Some 0%Z,
               search_state st db (found_key s suf)));
     [ apply (search_cdc_entry_from fuel s v st db cdt suf pre);
       try assumption; try congruence;
       assert (length suf <= length t) by (rewrite Hpre, length_app; lia);
       lia
     | ]);
    unfold found_entry, found_key in Hcall;
    destruct (first_match s suf) as [[k e]|] eqn:Hfm.
  - destruct suf; [discriminate|simpl in Hlen; lia].
  - rewrite (first_match_none s suf Hfm).
    cbn [length Nat.add search_calls]. rewrite Hcall. cbn [bind option_map].
    eexists. reflexivity.
  - destruct (first_match_split s suf k e Hfm) as (a & b & Hab & Hm).
    rewrite Hm. cbn [length Nat.add search_calls].
    rewrite Hcall. cbn [bind option_map fst snd].
    assert (Hnot : ~ In k (map fst (pre ++ a))).
    { apply (NoDup_keys_app k e (pre ++ a) b).
      rewrite <- app_assoc, <- Hab, <- Hpre. exact Hnd. }
    destruct (IH b ((pre ++ a) ++ [(k, e)]) 0%Z
                (search_state st db (Some k)) (set_memory db (Some k)))
      as [st' Hst'].
    + rewrite Hab, length_app in Hlen. simpl in Hlen. lia.
    + reflexivity.
    + exact Ht.
    + exact Htab.
    + rewrite Hpre, Hab, <- !app_assoc. reflexivity.
    + cbn [search_state local_first_call Z.eqb andb].
      unfold remaining. cbn [set_memory dbm_memory dbm_table].
      rewrite Htab, Hpre, Hab, app_assoc. apply after_app. exact Hnot.
    + rewrite Hst'. eexists. reflexivity.
  - rewrite (first_match_none s suf Hfm).
    cbn [length Nat.add search_calls]. rewrite Hcall. cbn [bind option_map].
    eexists. reflexivity.
Qed.

(** Scan completeness: on an open store whose catalog table has distinct
    keys and contents of the size of a catalog record, a scan started with
    the caller's flag set yields, one per call, the entries whose catalog
    string contains the search string, in the order of the table, and then
    the empty entry. *)
Lemma scan_complete (fuel : nat) (s : list char) (v : Z) (st : state)
  (db cdt : DBM) :
  cdc_dbm_ptr st = Some db -> cdt_dbm_ptr st = Some cdt ->
  length (c_str s) < CAT_CAT_LEN -> c_str s <> [] ->
  NoDup (map fst (dbm_table db)) -> cdc_sized (dbm_table db) ->
  length (dbm_table db) < fuel ->
  v <> 0%Z ->
  exists st',
    search_calls (length (matching s (dbm_table db)) + 1) fuel (Some s)
      (Some v) st
    = Done (matching s (dbm_table db) ++ [memset_zero sizeof_cdc_entry],
            Some 0%Z, st').
Proof.
  intros Hc Ht Hlt Hs Hnd Hsized Hfuel Hv.
  apply (search_calls_from fuel s cdt (dbm_table db) Hlt Hs Hnd Hsized Hfuel
           (length (dbm_table db)) (dbm_table db) [] v st db);
    auto.
  apply Z.eqb_neq in Hv. rewrite Hv, andb_false_r. reflexivity.
Qed.

Lemma contains_spec (s : list char) (entry : cdc_entry) :
  contains s entry = true <-> occurs_in (c_str s) (c_str (catalog entry)).
Proof.
  rewrite <- strstr_spec. unfold contains.
  destruct (strstr (catalog entry) s); split; congruence.
Qed.

(** C2: on an open store whose catalog table holds three records with the
    catalog strings AAA1, AAA2 and BBB1, three successive calls of
    [search_cdc_entry] with the search string AAA, the first with the
    caller's flag set, return the two records whose catalog string contains
    AAA, in the order of the table, and then the empty record; an entry is
    returned exactly when AAA occurs somewhere in its catalog string. *)
Theorem scan_for_AAA (fuel : nat) (st : state) (db cdt : DBM)
  (r1 r2 r3 : cdc_entry) :
  cdc_dbm_ptr st = Some db -> cdt_dbm_ptr st = Some cdt ->
  NoDup (map fst (dbm_table db)) ->
  Permutation (map snd (dbm_table db)) [r1; r2; r3] ->
  length r1 = sizeof_cdc_entry ->
  length r2 = sizeof_cdc_entry ->
  length r3 = sizeof_cdc_entry ->
  c_str (catalog r1) = bytes "AAA1" ->
  c_str (catalog r2) = bytes "AAA2" ->
  c_str (catalog r3) = bytes "BBB1" ->
  length (bytes "AAA") < CAT_CAT_LEN ->
  3 < fuel ->
  exists found st',
    search_calls 3 fuel (Some (bytes "AAA")) (Some 1%Z) st
    = Done (found ++ [memset_zero sizeof_cdc_entry], Some 0%Z, st') /\
    found = filter (contains (bytes "AAA")) (map snd (dbm_table db)) /\
    Permutation found [r1; r2] /\
    (forall r, In r found <->
               In r (map snd (dbm_table db)) /\
               occurs_in (bytes "AAA") (c_str (catalog r))).
Proof.
  intros Hc Ht Hnd Hperm Hs1 Hs2 Hs3 Hc1 Hc2 Hc3 Hbound Hfuel.
  assert (Hsized : cdc_sized (dbm_table db)).
  { unfold cdc_sized. apply Forall_forall. intros [k e] Hin.
    assert (Hin' : In e [r1; r2; r3]).
    { apply (Permutation_in _ Hperm). apply (in_map snd _ _ Hin). }
    cbn [snd]. simpl in Hin'.
    destruct Hin' as [<-|[<-|[<-|[]]]]; assumption. }
  assert (Hlen : length (dbm_table db) = 3).
  { rewrite <- (length_map snd). apply (Permutation_length Hperm). }
  assert (Hfound : Permutation (matching (bytes "AAA") (dbm_table db)) [r1; r2]).
  { unfold matching.
    eapply Permutation_trans; [apply Permutation_filter; exact Hperm|].
    unfold contains, strstr. cbn [filter]. rewrite Hc1, Hc2, Hc3.
    apply Permutation_refl. }
  destruct (scan_complete fuel (bytes "AAA") 1%Z st db cdt) as [st' Hscan];
    try assumption; try discriminate; [lia|].
  rewrite (Permutation_length Hfound) in Hscan.
  exists (matching (bytes "AAA") (dbm_table db)), st'.
  split; [exact Hscan|]. split; [reflexivity|]. split; [exact Hfound|].
  intros r. unfold matching. rewrite filter_In, contains_spec. reflexivity.
Qed.

(** C6: on the first call of [search_cdc_entry] that passes the checks the
    scan starts at the first key of the catalog table whatever value the
    caller's flag holds, and the flag holds 0 when the call returns. *)
Theorem first_call_starts_afresh (fuel : nat) (s : list char) (v : Z)
  (st : state) (db cdt : DBM) :
  cdc_dbm_ptr st = Some db -> cdt_dbm_ptr st = Some cdt ->
  length (c_str s) < CAT_CAT_LEN ->
  local_first_call st <> 0%Z ->
  search_cdc_entry fuel (Some s) (Some v) st
  = (r <- search_loop fuel (snd (dbm_firstkey db)) s (fst (dbm_firstkey db))
            None (memset_zero sizeof_cdc_entry) ;;
     let '(cdc, key, entry) := r in
     Done (entry, Some 0%Z,
           {| cdc_dbm_ptr := Some cdc; cdt_dbm_ptr := Some cdt;
              local_first_call := 0; local_key_datum := key;
              disk := disk st; stderr := stderr st |})) /\
  (forall entry f st',
      search_cdc_entry fuel (Some s) (Some v) st = Done (entry, f, st') ->
      f = Some 0%Z /\ local_first_call st' = 0%Z) /\
  (c_str s <> [] -> NoDup (map fst (dbm_table db)) ->
   cdc_sized (dbm_table db) -> length (dbm_table db) < fuel ->
   search_cdc_entry fuel (Some s) (Some v) st
   = Done (found_entry s (dbm_table db), Some 0%Z,
           search_state st db (found_key s (dbm_table db)))).
Proof.
  intros Hc Ht Hlt Hfirst.
  assert (Heq :
    search_cdc_entry fuel (Some s) (Some v) st
    = (r <- search_loop fuel (snd (dbm_firstkey db)) s (fst (dbm_firstkey db))
              None (memset_zero sizeof_cdc_entry) ;;
       let '(cdc, key, entry) := r in
       Done (entry, Some 0%Z,
             {| cdc_dbm_ptr := Some cdc; cdt_dbm_ptr := Some cdt;
                local_first_call := 0; local_key_datum := key;
                disk := disk st; stderr := stderr st |}))).
  { unfold search_cdc_entry. rewrite Hc, Ht. cbn [strlen bind].
    destruct (Nat.leb_spec CAT_CAT_LEN (length (c_str s))) as [Hge|_]; [lia|].
    apply Z.eqb_neq in Hfirst. rewrite Hfirst. reflexivity. }
  split; [exact Heq|]. split.
  - intros entry f st'. rewrite Heq.
    destruct (search_loop fuel _ s _ None _) as [[[cdc key] e]| |];
      cbn [bind]; [|discriminate|discriminate].
    intros E. injection E as <- <- <-. split; reflexivity.
  - intros Hs Hnd Hsized Hfuel.
    apply (search_cdc_entry_from fuel s v st db cdt (dbm_table db) []);
      try assumption; try reflexivity.
    apply Z.eqb_neq in Hfirst. rewrite Hfirst. reflexivity.
Qed.

End CdAccessFacts.

(** * Instances on the sample layout *)

Lemma add_get_cdc_roundtrip_witness :
  @get_cdc_entry sample_layout (Some (@catalog sample_layout sample_r1))
    (sample_open [(sample_key "AAA1", sample_r1)] [])
  = Done sample_r1.
Proof.
  apply (@add_get_cdc_roundtrip sample_layout sample_r1 (sample_open [] [])).
  - reflexivity.
  - split; discriminate.
  - vm_compute. lia.
  - vm_compute. reflexivity.
Defined.

Lemma add_get_cdt_roundtrip_witness :
  @get_cdt_entry sample_layout (Some (@catalog sample_layout sample_track)) 7
    (sample_open [] [(sample_track_key "AAA1 7", sample_track)])
  = Done sample_track.
Proof.
  apply (@add_get_cdt_roundtrip sample_layout sample_track (sample_open [] [])).
  - reflexivity.
  - split; discriminate.
  - vm_compute. lia.
  - vm_compute. reflexivity.
Defined.

Lemma scan_for_AAA_witness :
  exists found st',
    @search_calls sample_layout 3 4 (Some (bytes "AAA")) (Some 1%Z)
      (sample_open sample_table [])
    = Done (found ++ [memset_zero (@sizeof_cdc_entry sample_layout)],
            Some 0%Z, st') /\
    found = [sample_r1; sample_r2].
Proof.
  destruct (@scan_for_AAA sample_layout 4 (sample_open sample_table [])
              {| dbm_file := "cdc_data"; dbm_table := sample_table;
                 dbm_memory := None |}
              {| dbm_file := "cdt_data"; dbm_table := [];
                 dbm_memory := None |}
              sample_r1 sample_r2 sample_r3)
    as (found & st' & Hcalls & Hfound & _).
  - reflexivity.
  - reflexivity.
  - repeat constructor; simpl; intuition discriminate.
  - apply perm_skip. apply perm_swap.
  - reflexivity.
  - reflexivity.
  - reflexivity.
  - reflexivity.
  - reflexivity.
  - reflexivity.
  - vm_compute. lia.
  - lia.
  - exists found, st'. split; [exact Hcalls|]. rewrite Hfound. reflexivity.
Defined.

Lemma del_null_catalog_undefined_witness :
  @del_cdc_entry sample_layout None (sample_open sample_table []) = Undefined.
Proof.
  apply (@del_null_catalog_undefined sample_layout
           (sample_open sample_table [])).
  split; discriminate.
Defined.

Lemma del_cdc_entry_then_get_witness :
  exists result st',
    @del_cdc_entry sample_layout (Some (bytes "BBB1"))
      (sample_open sample_table []) = Done (result, st') /\
    (result = 1%Z \/ result = 0%Z) /\
    (result = 1%Z <->
     @cdc_stored sample_layout (bytes "BBB1") (sample_open sample_table [])) /\
    (result = 1%Z ->
     @get_cdc_entry sample_layout (Some (bytes "BBB1")) st'
     = Done (memset_zero (@sizeof_cdc_entry sample_layout))).
Proof.
  apply (@del_cdc_entry_then_get sample_layout (bytes "BBB1")
           (sample_open sample_table [])).
  - split; discriminate.
  - vm_compute. lia.
Defined.

Lemma track_key_is_padded_text_witness :
  length (bytes "AAA1 7" ++ repeat NUL 34) = 40 /\
  @get_cdt_entry sample_layout (Some (bytes "AAA1")) 7
    (sample_open [] [(sample_track_key "AAA1 7", sample_track)])
  = Done sample_track.
Proof.
  destruct (@track_key_is_padded_text sample_layout (bytes "AAA1") 7
              (sample_open [] [(sample_track_key "AAA1 7", sample_track)])
              {| dbm_file := "cdc_data"; dbm_table := [];
                 dbm_memory := None |}
              {| dbm_file := "cdt_data";
                 dbm_table := [(sample_track_key "AAA1 7", sample_track)];
                 dbm_memory := None |})
    as (Hlen & Hget & _).
  - reflexivity.
  - reflexivity.
  - vm_compute. lia.
  - vm_compute. lia.
  - split; [exact Hlen|]. rewrite Hget. reflexivity.
Defined.

Lemma track_key_print_bound_witness :
  @get_cdt_entry sample_layout (Some sample_long_catalog) 1234567890
    (sample_open [] []) = Undefined.
Proof.
  destruct (@track_key_print_bound sample_layout sample_long_catalog
              1234567890 (sample_open [] []))
    as (_ & Hover & _).
  - split; discriminate.
  - vm_compute. lia.
  - apply Hover. vm_compute. lia.
Defined.

Lemma first_call_starts_afresh_witness :
  @search_cdc_entry sample_layout 4 (Some (bytes "BBB")) (Some 0%Z)
    (sample_open sample_table [])
  = Done (sample_r3, Some 0%Z,
          search_state (sample_open sample_table [])
            {| dbm_file := "cdc_data"; dbm_table := sample_table;
               dbm_memory := None |}
            (Some (sample_key "BBB1"))).
Proof.
  destruct (@first_call_starts_afresh sample_layout 4 (bytes "BBB") 0%Z
              (sample_open sample_table [])
              {| dbm_file := "cdc_data"; dbm_table := sample_table;
                 dbm_memory := None |}
              {| dbm_file := "cdt_data"; dbm_table := [];
                 dbm_memory := None |})
    as (_ & _ & Hret).
  - reflexivity.
  - reflexivity.
  - vm_compute. lia.
  - discriminate.
  - rewrite Hret.
    + reflexivity.
    + discriminate.
    + repeat constructor; simpl; intuition discriminate.
    + repeat constructor.
    + simpl. lia.
Defined.

Lemma new_database_is_empty_witness :
  fst (@database_initialize 1 sample_used) = 1%Z /\
  (forall p,
      @get_cdc_entry sample_layout p (snd (@database_initialize 1 sample_used))
      = Done (memset_zero (@sizeof_cdc_entry sample_layout))) /\
  @get_cdt_entry sample_layout (Some (bytes "AAA1")) 7
    (snd (@database_initialize 1 sample_used))
  = Done (memset_zero (@sizeof_cdt_entry sample_layout)).
Proof.
  split; [reflexivity|].
  destruct (@new_database_is_empty sample_layout 1 sample_used
              (snd (@database_initialize 1 sample_used)))
    as (_ & Hcdc & Hcdt).
  - discriminate.
  - reflexivity.
  - split; [exact Hcdc|]. apply Hcdt.
    intros m E _. injection E as <-. vm_compute. lia.
Defined.

(** * Counterexamples *)

(** C5 as the specification words it: the key of a track would be the text
    in a buffer of bound + 9 bytes.  The key under which [add_cdt_entry]
    stores a record on the sample layout has 40 bytes, one more. *)
Lemma track_key_width_counterexample :
  ~ (forall (layout : cd_data) (r : cdt_entry) (st st' : state) (db : DBM),
        add_cdt_entry r st = Done (1%Z, st') ->
        cdt_dbm_ptr st' = Some db ->
        lookup (spec_cdt_key (catalog r) (track_no r)) (dbm_table db)
        = Some r).
Proof.
  intros Hclaim.
  specialize (Hclaim sample_layout sample_track (sample_open [] [])
                (sample_open [] [(sample_track_key "AAA1 7", sample_track)])
                {| dbm_file := "cdt_data";
                   dbm_table := [(sample_track_key "AAA1 7", sample_track)];
                   dbm_memory := None |}
                eq_refl eq_refl).
  vm_compute in Hclaim. discriminate.
Qed.

(** C8 as the specification words it: after the reset every lookup, for any
    key, would return the empty record.  [get_cdt_entry] called on the new
    database with a catalog string of 29 characters and the track number
    1234567890 prints 41 bytes into its key buffer of 40: the call has no
    defined result. *)
Lemma new_database_lookup_counterexample :
  ~ (forall (layout : cd_data) (new_database : Z) (st st' : state)
            (p : cptr) (d : Z),
        new_database <> 0%Z ->
        database_initialize new_database st = (1%Z, st') ->
        get_cdt_entry p d st' = Done (memset_zero sizeof_cdt_entry)).
Proof.
  intros Hclaim.
  assert (Hnew : 1%Z <> 0%Z) by discriminate.
  specialize (Hclaim sample_layout 1%Z sample_used
                (snd (database_initialize 1 sample_used))
                (Some sample_long_catalog) 1234567890%Z Hnew eq_refl).
  vm_compute in Hclaim. discriminate.
Qed.

(** C6 as the specification words it: after the first call the caller's
    flag would tell that a fresh start occurred.  A first call made with the
    flag at 0 starts at the first key and returns with the flag at 0: the
    flag is neither changed nor set. *)
Lemma first_call_flag_counterexample :
  ~ (forall (layout : cd_data) (fuel : nat) (s : list char) (v : Z)
            (st st' : state) (entry : cdc_entry) (f : option Z),
        is_open st -> local_first_call st <> 0%Z ->
        length (c_str s) < CAT_CAT_LEN ->
        search_cdc_entry fuel (Some s) (Some v) st = Done (entry, f, st') ->
        f <> Some v \/ exists v', f = Some v' /\ v' <> 0%Z).
Proof.
  intros Hclaim.
  destruct (Hclaim sample_layout 4 (bytes "AAA") 0%Z
              (sample_open sample_table [])
              (search_state (sample_open sample_table [])
                 {| dbm_file := "cdc_data"; dbm_table := sample_table;
                    dbm_memory := None |}
                 (Some (sample_key "AAA1")))
              sample_r1 (Some 0%Z))
    as [Hchanged | (v' & Hv' & Hset)].
  - split; discriminate.
  - discriminate.
  - vm_compute. lia.
  - vm_compute. reflexivity.
  - apply Hchanged. reflexivity.
  - injection Hv' as <-. apply Hset. reflexivity.
Qed.

(** * Further properties of the access functions *)

Section CdAccessMore.

Context {layout : cd_data}.

(** ** What each function changes *)

Lemma add_cdc_entry_effect (r : cdc_entry) (st st' : state) (result : Z) :
  add_cdc_entry r st = Done (result, st') ->
  (result = 0%Z /\ st' = st) \/
  (result = 1%Z /\ is_open st /\ length (c_str (catalog r)) < CAT_CAT_LEN /\
   cdt_dbm_ptr st' = cdt_dbm_ptr st /\
   cdc_dbm_ptr st' <> None /\
   cdc_table st' = replace (cdc_key (catalog r)) (firstn sizeof_cdc_entry r)
                     (cdc_table st)).
Proof.
  unfold add_cdc_entry, cdc_table.
  destruct (cdc_dbm_ptr st) as [cdc|] eqn:Hc;
    [|intros E; injection E as <- <-; auto].
  destruct (cdt_dbm_ptr st) as [cdt|] eqn:Ht;
    [|intros E; injection E as <- <-; auto].
  cbn [strlen bind].
  destruct (Nat.leb_spec CAT_CAT_LEN (length (c_str (catalog r)))) as [Hge|Hlt];
    [intros E; injection E as <- <-; auto|].
  rewrite strcpy_zeros by lia. cbn [bind].
  rewrite mk_datum_whole by (apply length_padded; lia).
  unfold mk_datum. rewrite dbm_store_replace. cbn [Z.eqb].
  intros E. injection E as <- <-. right.
  unfold is_open. rewrite Hc, Ht. cbn.
  repeat split; try discriminate; auto.
Qed.

Lemma del_cdc_entry_effect (p : cptr) (st st' : state) (result : Z) :
  del_cdc_entry p st = Done (result, st') ->
  cdt_dbm_ptr st' = cdt_dbm_ptr st /\
  (cdc_dbm_ptr st' = None <-> cdc_dbm_ptr st = None) /\
  ((result = 0%Z /\ cdc_table st' = cdc_table st) \/
   (result = 1%Z /\
    exists m, p = Some m /\ length (c_str m) < CAT_CAT_LEN /\
              lookup (cdc_key m) (cdc_table st) <> None /\
              cdc_table st' = remove (cdc_key m) (cdc_table st))).
Proof.
  unfold del_cdc_entry, cdc_table.
  destruct (cdc_dbm_ptr st) as [cdc|] eqn:Hc;
    [|intros E; injection E as <- <-; rewrite Hc; tauto].
  destruct (cdt_dbm_ptr st) as [cdt|] eqn:Ht;
    [|intros E; injection E as <- <-; rewrite Hc, Ht; intuition congruence].
  destruct p as [m|]; [|discriminate].
  cbn [strlen bind].
  destruct (Nat.leb_spec CAT_CAT_LEN (length (c_str m))) as [Hge|Hlt];
    [intros E; injection E as <- <-; rewrite Hc, Ht; intuition congruence|].
  rewrite strcpy_zeros by lia. cbn [bind].
  rewrite mk_datum_whole by (apply length_padded; lia).
  fold (cdc_key m). unfold dbm_delete.
  destruct (lookup (cdc_key m) (dbm_table cdc)) eqn:Hl;
    cbn [Z.eqb]; intros E; injection E as <- <-; cbn;
    (split; [exact Ht|]); (split; [split; discriminate|]); auto.
  right. split; [reflexivity|]. exists m. rewrite Hl.
  repeat split; auto. discriminate.
Qed.

Lemma search_loop_table (fuel : nat) (cdc cdc' : DBM) (s : list char)
  (key key' data : datum) (entry entry' : cdc_entry) :
  search_loop fuel cdc s key data entry = Done (cdc', key', entry') ->
  dbm_table cdc' = dbm_table cdc.
Proof.
  revert cdc key data entry.
  induction fuel as [|fuel IH]; intros cdc key data entry; [discriminate|].
  cbn [search_loop].
  destruct key as [k|]; cbn [bind];
    [|intros E; injection E as <- _ _; reflexivity].
  destruct (dbm_fetch cdc (Some k)) as [v|]; cbn [bind];
    [|intros E; injection E as <- _ _; reflexivity].
  destruct (memcpy entry v (length v)) as [e| |]; cbn [bind];
    [|discriminate|discriminate].
  destruct (strstr (catalog e) s); cbn [bind].
  - destruct (is_nul (nth 0 (catalog e) NUL)).
    + apply IH.
    + intros E; injection E as <- _ _; reflexivity.
  - unfold dbm_nextkey. cbn [bind].
    destruct (match dbm_memory cdc with
              | Some k0 => next_after k0 (dbm_table cdc)
              | None => None
              end) as [k'|].
    + destruct (is_nul (nth 0 (catalog (memset_zero sizeof_cdc_entry)) NUL)).
      * intros E. apply IH in E. exact E.
      * intros E; injection E as <- _ _; reflexivity.
    + intros E; injection E as <- _ _; reflexivity.
Qed.

Lemma search_cdc_entry_effect (fuel : nat) (p : cptr) (f f' : option Z)
  (st st' : state) (entry : cdc_entry) :
  search_cdc_entry fuel p f st = Done (entry, f', st') ->
  cdt_dbm_ptr st' = cdt_dbm_ptr st /\
  (cdc_dbm_ptr st' = None <-> cdc_dbm_ptr st = None) /\
  cdc_table st' = cdc_table st.
Proof.
  unfold search_cdc_entry, cdc_table.
  destruct (cdc_dbm_ptr st) as [cdc|] eqn:Hc;
    [|intros E; injection E as _ _ <-; rewrite Hc; tauto].
  destruct (cdt_dbm_ptr st) as [cdt|] eqn:Ht;
    [|intros E; injection E as _ _ <-; rewrite Hc, Ht; intuition congruence].
  destruct p as [m|];
    [|intros E; injection E as _ _ <-; rewrite Hc, Ht; intuition congruence].
  destruct f as [v|];
    [|intros E; injection E as _ _ <-; rewrite Hc, Ht; intuition congruence].
  cbn [strlen bind].
  destruct (Nat.leb_spec CAT_CAT_LEN (length (c_str m))) as [Hge|Hlt];
    [intros E; injection E as _ _ <-; rewrite Hc, Ht; intuition congruence|].
  destruct (if (local_first_call st =? 0)%Z
            then (local_first_call st, v) else (0%Z, 1%Z)) as [lfc fc].
  assert (Hstep : forall kd : datum * DBM,
             (kd = dbm_nextkey cdc \/ kd = dbm_firstkey cdc) ->
             dbm_table (snd kd) = dbm_table cdc)
    by (intros kd [-> | ->]; reflexivity).
  destruct (fc =? 0)%Z.
  - specialize (Hstep (dbm_nextkey cdc) (or_introl eq_refl)).
    destruct (dbm_nextkey cdc) as [key db]. cbn [snd] in Hstep.
    destruct (search_loop fuel db m key None _) as [[[db' key'] e]| |] eqn:Hl;
      cbn [bind]; [|discriminate|discriminate].
    apply search_loop_table in Hl.
    intros E; injection E as _ _ <-. cbn.
    split; [reflexivity|]. split; [split; discriminate|]. congruence.
  - specialize (Hstep (dbm_firstkey cdc) (or_intror eq_refl)).
    destruct (dbm_firstkey cdc) as [key db]. cbn [snd] in Hstep.
    destruct (search_loop fuel db m key None _) as [[[db' key'] e]| |] eqn:Hl;
      cbn [bind]; [|discriminate|discriminate].
    apply search_loop_table in Hl.
    intros E; injection E as _ _ <-. cbn.
    split; [reflexivity|]. split; [split; discriminate|]. congruence.
Qed.

Lemma add_cdt_entry_effect (r : cdt_entry) (st st' : state) (result : Z) :
  add_cdt_entry r st = Done (result, st') ->
  cdc_dbm_ptr st' = cdc_dbm_ptr st /\
  (cdt_dbm_ptr st' = None <-> cdt_dbm_ptr st = None) /\
  ((result = 0%Z /\ cdt_table st' = cdt_table st) \/
   (result = 1%Z /\ length (c_str (catalog r)) < CAT_CAT_LEN /\
    track_key_fits (catalog r) (track_no r) /\
    cdt_table st' = replace (cdt_key (catalog r) (track_no r))
                      (firstn sizeof_cdt_entry r) (cdt_table st))).
Proof.
  unfold cdt_table.
  destruct (cdc_dbm_ptr st) as [cdc|] eqn:Hc;
    [|unfold add_cdt_entry; rewrite Hc; intros E; injection E as <- <-;
      rewrite Hc; tauto].
  destruct (cdt_dbm_ptr st) as [cdt|] eqn:Ht;
    [|unfold add_cdt_entry; rewrite Hc, Ht; intros E; injection E as <- <-;
      rewrite Hc, Ht; intuition congruence].
  destruct (Nat.leb_spec CAT_CAT_LEN (length (c_str (catalog r)))) as [Hge|Hlt].
  - unfold add_cdt_entry. rewrite Hc, Ht. cbn [strlen bind].
    destruct (Nat.leb_spec CAT_CAT_LEN (length (c_str (catalog r))));
      [|lia].
    intros E; injection E as <- <-. rewrite Hc, Ht. intuition congruence.
  - rewrite (add_cdt_entry_open r st cdc cdt Hc Ht Hlt).
    destruct (track_key_fits_dec (catalog r) (track_no r)) as [Hfit|Hfit];
      [|discriminate].
    rewrite dbm_store_replace. cbn [Z.eqb].
    intros E; injection E as <- <-. cbn.
    split; [exact Hc|]. split; [split; discriminate|]. right. auto.
Qed.

Lemma del_cdt_entry_effect (p : cptr) (d : Z) (st st' : state) (result : Z) :
  del_cdt_entry p d st = Done (result, st') ->
  cdc_dbm_ptr st' = cdc_dbm_ptr st /\
  (cdt_dbm_ptr st' = None <-> cdt_dbm_ptr st = None) /\
  ((result = 0%Z /\ cdt_table st' = cdt_table st) \/
   (result = 1%Z /\
    exists m, p = Some m /\ length (c_str m) < CAT_CAT_LEN /\
              track_key_fits m d /\
              lookup (cdt_key m d) (cdt_table st) <> None /\
              cdt_table st' = remove (cdt_key m d) (cdt_table st))).
Proof.
  unfold cdt_table.
  destruct (cdc_dbm_ptr st) as [cdc|] eqn:Hc;
    [|unfold del_cdt_entry; rewrite Hc; intros E; injection E as <- <-;
      rewrite Hc; tauto].
  destruct (cdt_dbm_ptr st) as [cdt|] eqn:Ht;
    [|unfold del_cdt_entry; rewrite Hc, Ht; intros E; injection E as <- <-;
      rewrite Hc, Ht; intuition congruence].
  destruct p as [m|];
    [|unfold del_cdt_entry; rewrite Hc, Ht; discriminate].
  destruct (Nat.leb_spec CAT_CAT_LEN (length (c_str m))) as [Hge|Hlt].
  - unfold del_cdt_entry. rewrite Hc, Ht. cbn [strlen bind].
    destruct (Nat.leb_spec CAT_CAT_LEN (length (c_str m))); [|lia].
    intros E; injection E as <- <-. rewrite Hc, Ht. intuition congruence.
  - rewrite (del_cdt_entry_open m d st cdc cdt Hc Ht Hlt).
    destruct (track_key_fits_dec m d) as [Hfit|Hfit]; [|discriminate].
    unfold dbm_delete.
    destruct (lookup (cdt_key m d) (dbm_table cdt)) eqn:Hl;
      cbn [Z.eqb]; intros E; injection E as <- <-; cbn;
      (split; [exact Hc|]); (split; [split; discriminate|]); auto.
    right. split; [reflexivity|]. exists m. rewrite Hl.
    repeat split; auto. discriminate.
Qed.

(** The get functions read the state only through the two tables and
    through which of the pointers are null. *)
Lemma get_cdc_entry_same (p : cptr) (st st' : state) :
  (cdc_dbm_ptr st' = None <-> cdc_dbm_ptr st = None) ->
  (cdt_dbm_ptr st' = None <-> cdt_dbm_ptr st = None) ->
  cdc_table st' = cdc_table st ->
  get_cdc_entry p st' = get_cdc_entry p st.
Proof.
  unfold get_cdc_entry, cdc_table. intros Hc Ht Htab.
  destruct (cdc_dbm_ptr st') as [cdc'|], (cdc_dbm_ptr st) as [cdc|];
    try (exfalso; destruct Hc as [Hc1 Hc2];
         (discriminate (Hc1 eq_refl) || discriminate (Hc2 eq_refl)));
    [|reflexivity].
  destruct (cdt_dbm_ptr st') as [cdt'|], (cdt_dbm_ptr st) as [cdt|];
    try (exfalso; destruct Ht as [Ht1 Ht2];
         (discriminate (Ht1 eq_refl) || discriminate (Ht2 eq_refl)));
    [|reflexivity].
  destruct p as [m|]; [|reflexivity]. cbn [strlen bind].
  destruct (CAT_CAT_LEN <=? length (c_str m)); [reflexivity|].
  destruct (strcpy _ _); cbn [bind]; try reflexivity.
  unfold dbm_fetch, mk_datum. rewrite Htab. reflexivity.
Qed.

Lemma get_cdt_entry_same (p : cptr) (d : Z) (st st' : state) :
  (cdc_dbm_ptr st' = None <-> cdc_dbm_ptr st = None) ->
  (cdt_dbm_ptr st' = None <-> cdt_dbm_ptr st = None) ->
  cdt_table st' = cdt_table st ->
  get_cdt_entry p d st' = get_cdt_entry p d st.
Proof.
  unfold get_cdt_entry, cdt_table. intros Hc Ht Htab.
  destruct (cdc_dbm_ptr st') as [cdc'|], (cdc_dbm_ptr st) as [cdc|];
    try (exfalso; destruct Hc as [Hc1 Hc2];
         (discriminate (Hc1 eq_refl) || discriminate (Hc2 eq_refl)));
    [|reflexivity].
  destruct (cdt_dbm_ptr st') as [cdt'|], (cdt_dbm_ptr st) as [cdt|];
    try (exfalso; destruct Ht as [Ht1 Ht2];
         (discriminate (Ht1 eq_refl) || discriminate (Ht2 eq_refl)));
    [|reflexivity].
  destruct p as [m|]; [|reflexivity]. cbn [strlen bind].
  destruct (CAT_CAT_LEN <=? length (c_str m)); [reflexivity|].
  destruct (sprintf_s_d _ _ _); cbn [bind]; try reflexivity.
  unfold dbm_fetch, mk_datum. rewrite Htab. reflexivity.
Qed.

(** ** Tables under replace and remove *)

Lemma lookup_replace_other (k k' v : list char) (t : table) :
  k' <> k -> lookup k' (replace k v t) = lookup k' t.
Proof.
  intros Hne. induction t as [|[k0 v0] t IH]; simpl.
  - apply key_eqb_neq in Hne.
    destruct (key_eqb k k') eqn:E; [|reflexivity].
    apply key_eqb_eq in E. apply key_eqb_neq in Hne. congruence.
  - destruct (key_eqb k0 k) eqn:E; simpl.
    + apply key_eqb_eq in E. subst k0.
      assert (key_eqb k k' = false) by (apply key_eqb_neq; congruence).
      rewrite H. reflexivity.
    + destruct (key_eqb k0 k'); [reflexivity|exact IH].
Qed.

Lemma lookup_remove_other (k k' : list char) (t : table) :
  k' <> k -> lookup k' (remove k t) = lookup k' t.
Proof.
  intros Hne. induction t as [|[k0 v0] t IH]; simpl; [reflexivity|].
  destruct (key_eqb k0 k) eqn:E; simpl.
  - apply key_eqb_eq in E. subst k0.
    assert (key_eqb k k' = false) by (apply key_eqb_neq; congruence).
    rewrite H. exact IH.
  - destruct (key_eqb k0 k'); [reflexivity|exact IH].
Qed.

Lemma length_replace_present (k v : list char) (t : table) :
  lookup k t <> None -> length (replace k v t) = length t.
Proof.
  induction t as [|[k0 v0] t IH]; simpl; [congruence|].
  destruct (key_eqb k0 k); simpl; [reflexivity|].
  intros Hl. rewrite IH by exact Hl. reflexivity.
Qed.

Lemma length_replace_absent (k v : list char) (t : table) :
  lookup k t = None -> length (replace k v t) = S (length t).
Proof.
  induction t as [|[k0 v0] t IH]; simpl; [reflexivity|].
  destruct (key_eqb k0 k); simpl; [discriminate|].
  intros Hl. rewrite IH by exact Hl. reflexivity.
Qed.

Lemma in_keys_replace (k v k' : list char) (t : table) :
  In k' (map fst (replace k v t)) -> k' = k \/ In k' (map fst t).
Proof.
  induction t as [|[k0 v0] t IH]; simpl.
  - intros [<-|[]]. auto.
  - destruct (key_eqb k0 k) eqn:E; simpl.
    + intros [<-|Hin]; auto.
    + intros [<-|Hin]; auto. destruct (IH Hin); auto.
Qed.

Lemma NoDup_keys_replace (k v : list char) (t : table) :
  NoDup (map fst t) -> NoDup (map fst (replace k v t)).
Proof.
  induction t as [|[k0 v0] t IH]; simpl; intros Hnd.
  - repeat constructor. simpl. tauto.
  - inversion Hnd as [|? ? Hnot Hnd']; subst.
    destruct (key_eqb k0 k) eqn:E; simpl.
    + apply key_eqb_eq in E. subst k0. constructor; assumption.
    + constructor; [|apply IH; exact Hnd'].
      intros Hin. apply in_keys_replace in Hin.
      destruct Hin as [->|Hin]; [|contradiction].
      rewrite key_eqb_refl in E. discriminate.
Qed.

Lemma in_keys_remove (k k' : list char) (t : table) :
  In k' (map fst (remove k t)) -> In k' (map fst t).
Proof.
  induction t as [|[k0 v0] t IH]; simpl; [tauto|].
  destruct (key_eqb k0 k); simpl; intuition.
Qed.

Lemma NoDup_keys_remove (k : list char) (t : table) :
  NoDup (map fst t) -> NoDup (map fst (remove k t)).
Proof.
  induction t as [|[k0 v0] t IH]; simpl; intros Hnd; [constructor|].
  inversion Hnd as [|? ? Hnot Hnd']; subst.
  destruct (key_eqb k0 k); simpl; [apply IH; exact Hnd'|].
  constructor; [|apply IH; exact Hnd'].
  intros Hin. apply Hnot. eapply in_keys_remove. exact Hin.
Qed.

Lemma Forall_replace (P : list char * list char -> Prop) (k v : list char)
  (t : table) :
  P (k, v) -> Forall P t -> Forall P (replace k v t).
Proof.
  intros Hkv. induction 1 as [|[k0 v0] t Hp Ht IH]; simpl.
  - repeat constructor. exact Hkv.
  - destruct (key_eqb k0 k); constructor; auto.
Qed.

Lemma Forall_remove (P : list char * list char -> Prop) (k : list char)
  (t : table) :
  Forall P t -> Forall P (remove k t).
Proof.
  induction 1 as [|[k0 v0] t Hp Ht IH]; simpl; [constructor|].
  destruct (key_eqb k0 k); simpl; [exact IH|constructor; auto].
Qed.

Lemma in_replace (k v : list char) (t : table) : In (k, v) (replace k v t).
Proof.
  induction t as [|[k0 v0] t IH]; simpl; [auto|].
  destruct (key_eqb k0 k); simpl; auto.
Qed.

(** Catalog strings with the same key are the same string. *)
Lemma cdc_key_inj (a b : list char) :
  cdc_key a = cdc_key b -> c_str a = c_str b.
Proof.
  unfold cdc_key. intros E.
  rewrite <- (c_str_padded a (CAT_CAT_LEN + 1)), E. apply c_str_padded.
Qed.

Lemma get_cdc_entry_table (m : list char) (st : state) :
  is_open st -> length (c_str m) < CAT_CAT_LEN ->
  get_cdc_entry (Some m) st =
  match lookup (cdc_key m) (cdc_table st) with
  | Some v => memcpy (memset_zero sizeof_cdc_entry) v (length v)
  | None => Done (memset_zero sizeof_cdc_entry)
  end.
Proof.
  intros Hopen Hlt.
  destruct (is_open_inv st Hopen) as (cdc & cdt & Hc & Ht).
  rewrite (get_cdc_entry_open m st cdc cdt Hc Ht Hlt).
  unfold cdc_table. rewrite Hc. reflexivity.
Qed.

Lemma get_cdc_entry_long (m : list char) (st : state) :
  CAT_CAT_LEN <= length (c_str m) ->
  get_cdc_entry (Some m) st = Done (memset_zero sizeof_cdc_entry).
Proof.
  intros Hge. unfold get_cdc_entry.
  destruct (cdc_dbm_ptr st), (cdt_dbm_ptr st); try reflexivity.
  cbn [strlen bind].
  destruct (Nat.leb_spec CAT_CAT_LEN (length (c_str m))); [reflexivity|lia].
Qed.

Lemma is_open_after (st st' : state) :
  is_open st ->
  (cdc_dbm_ptr st' = None <-> cdc_dbm_ptr st = None) ->
  (cdt_dbm_ptr st' = None <-> cdt_dbm_ptr st = None) ->
  is_open st'.
Proof. unfold is_open. intuition. Qed.

(** ** Catalog entries: overwriting and other keys *)

(** X1: when two records with the same catalog string are added one after
    the other, [get_cdc_entry] returns the second for that string, and the
    second add has not made the table longer. *)
Theorem add_cdc_entry_overwrites (r1 r2 : cdc_entry) (st st1 st2 : state) :
  length r2 = sizeof_cdc_entry ->
  c_str (catalog r2) = c_str (catalog r1) ->
  add_cdc_entry r1 st = Done (1%Z, st1) ->
  add_cdc_entry r2 st1 = Done (1%Z, st2) ->
  get_cdc_entry (Some (catalog r1)) st2 = Done r2 /\
  length (cdc_table st2) = length (cdc_table st1).
Proof.
  intros Hsize Hcat Hadd1 Hadd2.
  destruct (add_cdc_entry_effect _ _ _ _ Hadd1)
    as [[E _]|(_ & _ & Hlt1 & _ & _ & Htab1)]; [discriminate|].
  destruct (add_cdc_entry_effect _ _ _ _ Hadd2)
    as [[E _]|(_ & Hopen1 & Hlt2 & Hcdt & Hcdc & Htab2)]; [discriminate|].
  assert (Hkey : cdc_key (catalog r2) = cdc_key (catalog r1))
    by (unfold cdc_key; rewrite Hcat; reflexivity).
  assert (Hopen2 : is_open st2).
  { split; [exact Hcdc|]. rewrite Hcdt. apply Hopen1. }
  split.
  - rewrite (get_cdc_entry_table _ _ Hopen2 Hlt1).
    rewrite Htab2, Hkey, lookup_replace.
    rewrite <- Hsize, firstn_all.
    apply memcpy_whole. rewrite length_memset_zero. reflexivity.
  - rewrite Htab2. apply length_replace_present.
    rewrite Hkey, Htab1, lookup_replace. discriminate.
Qed.

(** X2: a call of [add_cdc_entry] that returns changes what
    [get_cdc_entry] returns for no catalog string other than that of the
    record it was given. *)
Theorem add_cdc_entry_other_keys (r : cdc_entry) (m : list char)
  (st st' : state) (result : Z) :
  c_str m <> c_str (catalog r) ->
  add_cdc_entry r st = Done (result, st') ->
  get_cdc_entry (Some m) st' = get_cdc_entry (Some m) st.
Proof.
  intros Hne Hadd.
  destruct (add_cdc_entry_effect _ _ _ _ Hadd)
    as [[_ ->]|(_ & Hopen & _ & Hcdt & Hcdc & Htab)]; [reflexivity|].
  destruct (Nat.le_gt_cases CAT_CAT_LEN (length (c_str m))) as [Hge|Hlt].
  - rewrite !get_cdc_entry_long by exact Hge. reflexivity.
  - assert (Hopen' : is_open st').
    { split; [exact Hcdc|]. rewrite Hcdt. apply Hopen. }
    rewrite (get_cdc_entry_table _ _ Hopen' Hlt),
      (get_cdc_entry_table _ _ Hopen Hlt), Htab.
    rewrite lookup_replace_other; [reflexivity|].
    intros E. apply Hne. apply cdc_key_inj. exact E.
Qed.

Lemma get_cdc_entry_same_lookup (p : cptr) (st st' : state) :
  (cdc_dbm_ptr st' = None <-> cdc_dbm_ptr st = None) ->
  (cdt_dbm_ptr st' = None <-> cdt_dbm_ptr st = None) ->
  (forall m, p = Some m -> length (c_str m) < CAT_CAT_LEN ->
             lookup (cdc_key m) (cdc_table st')
             = lookup (cdc_key m) (cdc_table st)) ->
  get_cdc_entry p st' = get_cdc_entry p st.
Proof.
  unfold get_cdc_entry, cdc_table. intros Hc Ht Htab.
  destruct (cdc_dbm_ptr st') as [cdc'|], (cdc_dbm_ptr st) as [cdc|];
    try (exfalso; destruct Hc as [Hc1 Hc2];
         (discriminate (Hc1 eq_refl) || discriminate (Hc2 eq_refl)));
    [|reflexivity].
  destruct (cdt_dbm_ptr st') as [cdt'|], (cdt_dbm_ptr st) as [cdt|];
    try (exfalso; destruct Ht as [Ht1 Ht2];
         (discriminate (Ht1 eq_refl) || discriminate (Ht2 eq_refl)));
    [|reflexivity].
  destruct p as [m|]; [|reflexivity]. cbn [strlen bind].
  destruct (Nat.leb_spec CAT_CAT_LEN (length (c_str m))) as [Hge|Hlt];
    [reflexivity|].
  rewrite strcpy_zeros by lia. cbn [bind].
  rewrite mk_datum_whole by (apply length_padded; lia).
  fold (cdc_key m). unfold dbm_fetch.
  rewrite (Htab m eq_refl Hlt). reflexivity.
Qed.

Lemma get_cdt_entry_same_lookup (p : cptr) (d : Z) (st st' : state) :
  (cdc_dbm_ptr st' = None <-> cdc_dbm_ptr st = None) ->
  (cdt_dbm_ptr st' = None <-> cdt_dbm_ptr st = None) ->
  (forall m, p = Some m -> length (c_str m) < CAT_CAT_LEN ->
             track_key_fits m d ->
             lookup (cdt_key m d) (cdt_table st')
             = lookup (cdt_key m d) (cdt_table st)) ->
  get_cdt_entry p d st' = get_cdt_entry p d st.
Proof.
  unfold get_cdt_entry, cdt_table. intros Hc Ht Htab.
  destruct (cdc_dbm_ptr st') as [cdc'|], (cdc_dbm_ptr st) as [cdc|];
    try (exfalso; destruct Hc as [Hc1 Hc2];
         (discriminate (Hc1 eq_refl) || discriminate (Hc2 eq_refl)));
    [|reflexivity].
  destruct (cdt_dbm_ptr st') as [cdt'|], (cdt_dbm_ptr st) as [cdt|];
    try (exfalso; destruct Ht as [Ht1 Ht2];
         (discriminate (Ht1 eq_refl) || discriminate (Ht2 eq_refl)));
    [|reflexivity].
  destruct p as [m|]; [|reflexivity]. cbn [strlen bind].
  destruct (Nat.leb_spec CAT_CAT_LEN (length (c_str m))) as [Hge|Hlt];
    [reflexivity|].
  destruct (track_key_fits_dec m d) as [Hfit|Hfit].
  - rewrite sprintf_key by exact Hfit. cbn [bind].
    rewrite mk_datum_whole by (apply length_cdt_key; exact Hfit).
    unfold dbm_fetch. rewrite (Htab m eq_refl Hlt Hfit). reflexivity.
  - rewrite sprintf_key_overflow by exact Hfit. reflexivity.
Qed.

(** X3: a call of [del_cdc_entry] that returns changes what
    [get_cdc_entry] returns for no catalog string other than the one
    deleted, and for none at all when it returns 0. *)
Theorem del_cdc_entry_other_keys (p : cptr) (m : list char) (st st' : state)
  (result : Z) :
  del_cdc_entry p st = Done (result, st') ->
  result = 0%Z \/ (forall k, p = Some k -> c_str m <> c_str k) ->
  get_cdc_entry (Some m) st' = get_cdc_entry (Some m) st.
Proof.
  intros Hdel Hother.
  destruct (del_cdc_entry_effect _ _ _ _ Hdel) as (Hcdt & Hcdc & Heff).
  apply get_cdc_entry_same_lookup; [exact Hcdc|rewrite Hcdt; tauto|].
  intros m' Hm' _. injection Hm' as <-.
  destruct Heff as [[_ ->]|(Hres & k & Hp & _ & _ & ->)]; [reflexivity|].
  destruct Hother as [H0|Hne]; [congruence|].
  apply lookup_remove_other.
  intros E. apply (Hne k Hp). apply cdc_key_inj. exact E.
Qed.

(** ** Track entries: deleting *)

(** X4: on an open store, for a catalog string below the bound and a track
    number whose key text fits the buffer, [del_cdt_entry] returns 1 or 0;
    it returns 1 exactly when a record was stored under that key, and after
    it has returned 1 [get_cdt_entry] returns the empty record for the same
    arguments. *)
Theorem del_cdt_entry_then_get (m : list char) (d : Z) (st : state) :
  is_open st ->
  length (c_str m) < CAT_CAT_LEN ->
  track_key_fits m d ->
  exists result st',
    del_cdt_entry (Some m) d st = Done (result, st') /\
    (result = 1%Z \/ result = 0%Z) /\
    (result = 1%Z <-> lookup (cdt_key m d) (cdt_table st) <> None) /\
    (result = 1%Z ->
     get_cdt_entry (Some m) d st' = Done (memset_zero sizeof_cdt_entry)).
Proof.
  intros Hopen Hlt Hfit.
  destruct (is_open_inv st Hopen) as (cdc & cdt & Hc & Ht).
  rewrite (del_cdt_entry_open m d st cdc cdt Hc Ht Hlt).
  destruct (track_key_fits_dec m d) as [_|Hno]; [|contradiction].
  unfold cdt_table, dbm_delete. rewrite Ht.
  destruct (lookup (cdt_key m d) (dbm_table cdt)) as [v|] eqn:Hv.
  - eexists _, _. split; [reflexivity|]. cbn [Z.eqb].
    split; [left; reflexivity|]. split.
    + split; [discriminate|reflexivity].
    + intros _.
      erewrite get_cdt_entry_open; [|exact Hc|reflexivity|exact Hlt].
      destruct (track_key_fits_dec m d) as [_|Hno]; [|contradiction].
      cbn [dbm_fetch dbm_table]. rewrite lookup_remove. reflexivity.
  - eexists _, _. split; [reflexivity|]. cbn [Z.eqb].
    split; [right; reflexivity|]. split.
    + split; [discriminate|congruence].
    + discriminate.
Qed.

(** ** The two tables *)

(** X5: the functions on catalog entries leave the track table as it is and
    the functions on track entries leave the catalog table as it is: after
    [add_cdc_entry], [del_cdc_entry] or [search_cdc_entry] every
    [get_cdt_entry] returns what it returned before (the tracks of a deleted
    catalog entry stay), and after [add_cdt_entry] or [del_cdt_entry] every
    [get_cdc_entry] returns what it returned before. *)
Theorem tables_are_independent (st : state) :
  (forall r result st',
      add_cdc_entry r st = Done (result, st') ->
      forall p d, get_cdt_entry p d st' = get_cdt_entry p d st) /\
  (forall q result st',
      del_cdc_entry q st = Done (result, st') ->
      forall p d, get_cdt_entry p d st' = get_cdt_entry p d st) /\
  (forall fuel q f entry f' st',
      search_cdc_entry fuel q f st = Done (entry, f', st') ->
      forall p d, get_cdt_entry p d st' = get_cdt_entry p d st) /\
  (forall r result st',
      add_cdt_entry r st = Done (result, st') ->
      forall p, get_cdc_entry p st' = get_cdc_entry p st) /\
  (forall q d result st',
      del_cdt_entry q d st = Done (result, st') ->
      forall p, get_cdc_entry p st' = get_cdc_entry p st).
Proof.
  repeat split.
  - intros r result st' Hadd p d.
    destruct (add_cdc_entry_effect _ _ _ _ Hadd)
      as [[_ ->]|(_ & Hopen & _ & Hcdt & Hcdc & _)]; [reflexivity|].
    apply get_cdt_entry_same.
    + destruct Hopen as [Hc _]. tauto.
    + rewrite Hcdt. tauto.
    + unfold cdt_table. rewrite Hcdt. reflexivity.
  - intros q result st' Hdel p d.
    destruct (del_cdc_entry_effect _ _ _ _ Hdel) as (Hcdt & Hcdc & _).
    apply get_cdt_entry_same; [exact Hcdc|rewrite Hcdt; tauto|].
    unfold cdt_table. rewrite Hcdt. reflexivity.
  - intros fuel q f entry f' st' Hsearch p d.
    destruct (search_cdc_entry_effect _ _ _ _ _ _ _ Hsearch)
      as (Hcdt & Hcdc & _).
    apply get_cdt_entry_same; [exact Hcdc|rewrite Hcdt; tauto|].
    unfold cdt_table. rewrite Hcdt. reflexivity.
  - intros r result st' Hadd p.
    destruct (add_cdt_entry_effect _ _ _ _ Hadd) as (Hcdc & Hcdt & _).
    apply get_cdc_entry_same; [rewrite Hcdc; tauto|exact Hcdt|].
    unfold cdc_table. rewrite Hcdc. reflexivity.
  - intros q d result st' Hdel p.
    destruct (del_cdt_entry_effect _ _ _ _ _ Hdel) as (Hcdc & Hcdt & _).
    apply get_cdc_entry_same; [rewrite Hcdc; tauto|exact Hcdt|].
    unfold cdc_table. rewrite Hcdc. reflexivity.
Qed.

(** ** Track entries: keys of different tracks *)

Lemma nilempty_plain (u : Decimal.uint) :
  Forall (fun c => c <> " "%char /\ is_nul c = false)
    (list_ascii_of_string (NilEmpty.string_of_uint u)).
Proof.
  induction u; simpl; constructor; auto; split; (discriminate || reflexivity).
Qed.

Lemma nilzero_plain (u : Decimal.uint) :
  Forall (fun c => c <> " "%char /\ is_nul c = false)
    (list_ascii_of_string (NilZero.string_of_uint u)).
Proof.
  destruct u; try apply nilempty_plain.
  repeat constructor. discriminate.
Qed.

(** The decimal text of a number has no space and no zero byte. *)
Lemma itoa_plain (d : Z) :
  Forall (fun c => c <> " "%char /\ is_nul c = false) (itoa d).
Proof.
  unfold itoa. destruct (Z.to_int d) as [u|u]; simpl.
  - apply nilzero_plain.
  - constructor; [split; (discriminate || reflexivity)|apply nilzero_plain].
Qed.

(** Different numbers have different decimal texts. *)
Lemma itoa_inj (a b : Z) : itoa a = itoa b -> a = b.
Proof.
  unfold itoa. intros E.
  apply (f_equal string_of_list_ascii) in E.
  rewrite !string_of_list_ascii_of_string in E.
  apply (f_equal NilZero.int_of_string) in E.
  assert (Hnn : forall z, Z.to_int z <> Decimal.Pos Decimal.Nil /\
                          Z.to_int z <> Decimal.Neg Decimal.Nil).
  { intros [|q|q]; simpl; split; try discriminate;
      intros Hq; injection Hq as Hq;
      apply (DecimalPos.Unsigned.to_uint_nonnil q); exact Hq. }
  rewrite !NilZero.isi in E by apply Hnn.
  injection E as E. apply DecimalZ.to_int_inj. exact E.
Qed.

Lemma c_str_nulfree (l : list char) :
  Forall (fun c => is_nul c = false) l -> c_str l = l.
Proof.
  induction 1 as [|c l Hc _ IH]; simpl; [reflexivity|].
  rewrite Hc, IH. reflexivity.
Qed.

Lemma c_str_is_nulfree (m : list char) :
  Forall (fun c => is_nul c = false) (c_str m).
Proof.
  induction m as [|c m IH]; simpl; [constructor|].
  destruct (is_nul c) eqn:E; constructor; assumption.
Qed.

Lemma app_sep_unique {A : Type} (x : A) (l1 r1 l2 r2 : list A) :
  ~ In x l1 -> ~ In x l2 ->
  l1 ++ x :: r1 = l2 ++ x :: r2 -> l1 = l2 /\ r1 = r2.
Proof.
  revert l2. induction l1 as [|a l1 IH]; intros [|b l2] H1 H2 E; simpl in *.
  - injection E as ->. auto.
  - injection E as -> _. tauto.
  - injection E as -> _. tauto.
  - injection E as -> E. destruct (IH l2) as [-> ->]; auto.
Qed.

Lemma rev_sep_unique {A : Type} (x : A) (l1 r1 l2 r2 : list A) :
  ~ In x r1 -> ~ In x r2 ->
  l1 ++ x :: r1 = l2 ++ x :: r2 -> l1 = l2 /\ r1 = r2.
Proof.
  intros H1 H2 E. apply (f_equal (@rev A)) in E.
  rewrite !rev_app_distr in E. simpl in E. rewrite <- !app_assoc in E.
  simpl in E.
  apply app_sep_unique in E; try (rewrite <- in_rev; assumption).
  destruct E as [Er El].
  apply (f_equal (@rev A)) in Er, El. rewrite !rev_involutive in Er, El.
  auto.
Qed.

Lemma track_text_nulfree (m : list char) (d : Z) :
  c_str (track_text m d) = track_text m d.
Proof.
  apply c_str_nulfree. unfold track_text. apply Forall_app. split.
  - apply c_str_is_nulfree.
  - constructor; [reflexivity|].
    eapply Forall_impl; [|apply itoa_plain]. intros c [_ Hc]. exact Hc.
Qed.

(** The text of a track key determines the catalog string and the track
    number, and so does the key. *)
Lemma track_text_inj (a b : list char) (d e : Z) :
  track_text a d = track_text b e -> c_str a = c_str b /\ d = e.
Proof.
  unfold track_text. intros E.
  assert (Hsp : forall z, ~ In " "%char (itoa z)).
  { intros z Hin. pose proof (itoa_plain z) as Hp.
    rewrite Forall_forall in Hp. destruct (Hp _ Hin) as [Hne _].
    apply Hne. reflexivity. }
  apply rev_sep_unique in E; try apply Hsp.
  destruct E as [Ha Hd]. split; [exact Ha|apply itoa_inj; exact Hd].
Qed.

Lemma cdt_key_inj (a b : list char) (d e : Z) :
  cdt_key a d = cdt_key b e -> c_str a = c_str b /\ d = e.
Proof.
  unfold cdt_key. intros E. apply track_text_inj.
  pose proof (c_str_padded (track_text a d) (CAT_CAT_LEN + 10)) as Ha.
  pose proof (c_str_padded (track_text b e) (CAT_CAT_LEN + 10)) as Hb.
  rewrite track_text_nulfree in Ha, Hb. congruence.
Qed.

(** X6: the keys of two tracks are equal only when the catalog strings and
    the track numbers are; a call of [add_cdt_entry] or [del_cdt_entry] that
    returns changes what [get_cdt_entry] returns for no other catalog
    string and for no other track number. *)
Theorem track_keys_do_not_collide (m : list char) (d : Z) (st : state) :
  (forall m' d', cdt_key m' d' = cdt_key m d -> c_str m' = c_str m /\ d' = d) /\
  (forall r result st',
      c_str m <> c_str (catalog r) \/ d <> track_no r ->
      add_cdt_entry r st = Done (result, st') ->
      get_cdt_entry (Some m) d st' = get_cdt_entry (Some m) d st) /\
  (forall k n result st',
      c_str m <> c_str k \/ d <> n ->
      del_cdt_entry (Some k) n st = Done (result, st') ->
      get_cdt_entry (Some m) d st' = get_cdt_entry (Some m) d st).
Proof.
  split; [intros m' d'; apply cdt_key_inj|]. split.
  - intros r result st' Hne Hadd.
    destruct (add_cdt_entry_effect _ _ _ _ Hadd) as (Hcdc & Hcdt & Heff).
    apply get_cdt_entry_same_lookup; [rewrite Hcdc; tauto|exact Hcdt|].
    intros m' Hm' _ _. injection Hm' as <-.
    destruct Heff as [[_ ->]|(_ & _ & _ & ->)]; [reflexivity|].
    apply lookup_replace_other. intros E.
    apply cdt_key_inj in E. tauto.
  - intros k n result st' Hne Hdel.
    destruct (del_cdt_entry_effect _ _ _ _ _ Hdel) as (Hcdc & Hcdt & Heff).
    apply get_cdt_entry_same_lookup; [rewrite Hcdc; tauto|exact Hcdt|].
    intros m' Hm' _ _. injection Hm' as <-.
    destruct Heff as [[_ ->]|(_ & k' & Hk' & _ & _ & _ & ->)];
      [reflexivity|].
    injection Hk' as <-.
    apply lookup_remove_other. intros E.
    apply cdt_key_inj in E. tauto.
Qed.

(** ** The catalog key never overflows *)


(** ** More on the search *)

(** The catalog string of a record stored under its own key ends inside the
    member: read from the first byte of the record, with no regard to the
    end of the member, it is the same string. *)
Lemma keyed_catalog_terminated (t : table) (r : cdc_entry) :
  cdc_keyed t -> In r (map snd t) -> c_str (catalog r) = c_str r.
Proof.
  intros Hkeyed Hin. apply in_map_iff in Hin.
  destruct Hin as ([k v] & Hv & Hin). cbn [snd] in Hv. subst v.
  unfold cdc_keyed in Hkeyed. rewrite Forall_forall in Hkeyed.
  destruct (Hkeyed _ Hin) as [_ Hlt]. cbn [snd] in Hlt.
  unfold catalog in *. apply c_str_firstn. lia.
Qed.

(** X11: scan completeness for any search string that is not empty: on an
    open store whose catalog table is as the access functions build it
    (distinct keys, contents of the size of a catalog record, every record
    under the key of its own catalog string, which is below the bound and
    so ends inside the member), a scan started with the caller's flag set
    returns, one per call and in the order of the table, exactly the
    entries in whose catalog string the search string occurs, each as often
    as it is stored, and then the empty entry. *)
Theorem scan_yields_exactly_matching (fuel : nat) (s : list char) (v : Z)
  (st : state) (db cdt : DBM) :
  cdc_dbm_ptr st = Some db -> cdt_dbm_ptr st = Some cdt ->
  length (c_str s) < CAT_CAT_LEN -> c_str s <> [] ->
  NoDup (map fst (dbm_table db)) -> cdc_sized (dbm_table db) ->
  cdc_keyed (dbm_table db) ->
  length (dbm_table db) < fuel ->
  v <> 0%Z ->
  exists found st',
    search_calls (length found + 1) fuel (Some s) (Some v) st
    = Done (found ++ [memset_zero sizeof_cdc_entry], Some 0%Z, st') /\
    found = filter (contains s) (map snd (dbm_table db)) /\
    (forall r, In r found <->
               In r (map snd (dbm_table db)) /\
               occurs_in (c_str s) (c_str (catalog r))) /\
    (forall r, In r found -> is_nul (nth 0 (catalog r) NUL) = false) /\
    (forall r, In r (map snd (dbm_table db)) -> c_str (catalog r) = c_str r).
Proof.
  intros Hc Ht Hlt Hs Hnd Hsized Hkeyed Hfuel Hv.
  destruct (scan_complete fuel s v st db cdt Hc Ht Hlt Hs Hnd Hsized Hfuel Hv)
    as [st' Hscan].
  exists (matching s (dbm_table db)), st'.
  split; [exact Hscan|]. split; [reflexivity|]. split.
  - intros r. unfold matching. rewrite filter_In, contains_spec. reflexivity.
  - split.
    + intros r. unfold matching. rewrite filter_In. intros [_ Hcon].
      apply (contains_head s r Hs Hcon).
    + intros r. apply keyed_catalog_terminated. exact Hkeyed.
Qed.

(** X12: on an open store whose catalog table is as the access functions
    build it (distinct keys, contents of the size of a catalog record,
    every record under the key of its own catalog string, which is below
    the bound), a call with the caller's flag set starts the scan again at
    the first key whatever the position of the cursor and whatever the
    earlier calls: it returns the first entry of the table that contains
    the search string, or the empty entry when there is none, and leaves
    the flag at 0. *)
Theorem flag_restarts_scan (fuel : nat) (s : list char) (v : Z) (st : state)
  (db cdt : DBM) :
  cdc_dbm_ptr st = Some db -> cdt_dbm_ptr st = Some cdt ->
  length (c_str s) < CAT_CAT_LEN -> c_str s <> [] ->
  NoDup (map fst (dbm_table db)) -> cdc_sized (dbm_table db) ->
  cdc_keyed (dbm_table db) ->
  length (dbm_table db) < fuel ->
  v <> 0%Z ->
  exists st',
    search_cdc_entry fuel (Some s) (Some v) st
    = Done (match find (fun kv => contains s (snd kv)) (dbm_table db) with
            | Some kv => snd kv
            | None => memset_zero sizeof_cdc_entry
            end, Some 0%Z, st') /\
    cdc_table st' = dbm_table db.
Proof.
  intros Hc Ht Hlt Hs Hnd Hsized _ Hfuel Hv.
  eexists. split.
  - apply (search_cdc_entry_from fuel s v st db cdt (dbm_table db) []);
      try assumption; try reflexivity.
    apply Z.eqb_neq in Hv. rewrite Hv, andb_false_r. reflexivity.
  - reflexivity.
Qed.

Lemma matching_nil_first_match (s : list char) (t : table) :
  matching s t = [] -> first_match s t = None.
Proof.
  unfold matching, first_match.
  induction t as [|[k e] t IH]; simpl; [reflexivity|].
  destruct (contains s e); [discriminate|exact IH].
Qed.

Lemma length_after (k : list char) (t : table) :
  length (after k t) <= length t.
Proof.
  induction t as [|[k' v'] t IH]; simpl; [lia|].
  destruct (key_eqb k' k); lia.
Qed.

Lemma length_remaining (db : DBM) :
  length (remaining db) <= length (dbm_table db).
Proof.
  unfold remaining. destruct (dbm_memory db); [apply length_after|simpl; lia].
Qed.

(** X13: on an open store whose catalog table is as the access functions
    build it (distinct keys, contents of the size of a catalog record,
    every record under the key of its own catalog string, which is below
    the bound), once no entry that contains the search string is left after
    the cursor, every further call with the flag at 0 returns the empty
    entry: the scan does not start again by itself. *)
Theorem exhausted_scan_stays_empty (fuel : nat) (s : list char) (cdt : DBM)
  (t : table) :
  length (c_str s) < CAT_CAT_LEN -> c_str s <> [] ->
  NoDup (map fst t) -> cdc_sized t -> cdc_keyed t -> length t < fuel ->
  forall (n : nat) (st : state) (db : DBM),
    cdc_dbm_ptr st = Some db -> cdt_dbm_ptr st = Some cdt ->
    dbm_table db = t ->
    local_first_call st = 0%Z ->
    matching s (remaining db) = [] ->
    exists st',
      search_calls n fuel (Some s) (Some 0%Z) st
      = Done (repeat (memset_zero sizeof_cdc_entry) n, Some 0%Z, st').
Proof.
  intros Hlt Hs Hnd Hsized _ Hfuel.
  induction n as [|n IH]; intros st db Hc Ht Htab Hlfc Hnone.
  - eexists. reflexivity.
  - destruct (remaining_suffix db) as [pre Hpre].
    assert (Hcall :
      search_cdc_entry fuel (Some s) (Some 0%Z) st
      = Done (found_entry s (remaining db), Some 0%Z,
              search_state st db (found_key s (remaining db)))).
    { apply (search_cdc_entry_from fuel s 0%Z st db cdt (remaining db) pre);
        try assumption; try congruence.
      - pose proof (length_remaining db). rewrite Htab in *. lia.
      - rewrite Hlfc. reflexivity. }
    unfold found_entry, found_key in Hcall.
    rewrite (matching_nil_first_match _ _ Hnone) in Hcall.
    cbn [option_map] in Hcall.
    destruct (IH (search_state st db None) (set_memory db None))
      as [st' Hst']; try reflexivity; try assumption.
    cbn [search_calls]. rewrite Hcall. cbn [bind]. rewrite Hst'.
    eexists. reflexivity.
Qed.

(** X14: a search started with an empty search string on a store whose
    first catalog entry has an empty catalog string does not return: the
    entry is taken for a match, the loop goes on while the catalog string
    of the entry found is empty, and the cursor does not move. *)
Theorem empty_search_string_never_returns (s : list char) (v : Z)
  (st : state) (db cdt : DBM) (k e : list char) (t : table) :
  cdc_dbm_ptr st = Some db -> cdt_dbm_ptr st = Some cdt ->
  0 < CAT_CAT_LEN ->
  c_str s = [] ->
  dbm_table db = (k, e) :: t ->
  length e = sizeof_cdc_entry ->
  is_nul (nth 0 (catalog e) NUL) = true ->
  local_first_call st <> 0%Z \/ v <> 0%Z ->
  forall fuel, search_cdc_entry fuel (Some s) (Some v) st = OutOfFuel.
Proof.
  intros Hc Ht Hpos Hs Htab Hsize Hnul Hfresh fuel.
  unfold search_cdc_entry. rewrite Hc, Ht. cbn [strlen bind]. rewrite Hs.
  destruct (Nat.leb_spec CAT_CAT_LEN (length (@nil char))) as [Hge|_];
    [simpl in Hge; lia|].
  assert (Hloop : forall d,
    search_loop fuel (snd (dbm_firstkey db)) s (fst (dbm_firstkey db)) d
      (memset_zero sizeof_cdc_entry) = OutOfFuel).
  { intros d. unfold dbm_firstkey. rewrite Htab. cbn [fst snd].
    apply (search_loop_empty_catalog fuel _ s k e); auto.
    - cbn [set_memory dbm_table]. rewrite Htab. simpl.
      rewrite key_eqb_refl. reflexivity.
    - rewrite length_memset_zero. auto. }
  destruct (local_first_call st =? 0)%Z eqn:Hlfc.
  - destruct Hfresh as [Hf|Hv]; [apply Z.eqb_neq in Hf; congruence|].
    apply Z.eqb_neq in Hv. rewrite Hv.
    destruct (dbm_firstkey db) as [key db']. cbn [fst snd] in Hloop.
    rewrite Hloop. reflexivity.
  - cbn [Z.eqb].
    destruct (dbm_firstkey db) as [key db']. cbn [fst snd] in Hloop.
    rewrite Hloop. reflexivity.
Qed.

(** ** Stores built by the access functions *)

Lemma new_database_tables (new_database : Z) (st st' : state) :
  new_database <> 0%Z ->
  database_initialize new_database st = (1%Z, st') ->
  is_open st' /\ cdc_table st' = [] /\ cdt_table st' = [].
Proof.
  intros Hnew. unfold database_initialize, cdc_table, cdt_table, is_open.
  apply Z.eqb_neq in Hnew. rewrite Hnew.
  set (fs := match cdt_dbm_ptr st with Some _ => _ | None => _ end).
  destruct (unlinked_absent fs) as (Hcp & Hcd & Htp & Htd).
  set (fs0 := unlink CDT_FILE_DIR _) in *.
  pose proof (dbm_open_absent fs0 CDC_FILE_BASE (Z.lor O_CREAT O_RDWR) 420
                Hcp Hcd) as Hcdc.
  pose proof (dbm_open_keeps_absent fs0 CDC_FILE_BASE CDT_FILE_PAG
                (Z.lor O_CREAT O_RDWR) 420 eq_refl eq_refl Htp) as Htp1.
  pose proof (dbm_open_keeps_absent fs0 CDC_FILE_BASE CDT_FILE_DIR
                (Z.lor O_CREAT O_RDWR) 420 eq_refl eq_refl Htd) as Htd1.
  destruct (dbm_open fs0 CDC_FILE_BASE _ 420) as [fs1 cdc].
  cbn [fst snd] in Hcdc, Htp1, Htd1.
  pose proof (dbm_open_absent fs1 CDT_FILE_BASE (Z.lor O_CREAT O_RDWR) 420
                Htp1 Htd1) as Hcdt.
  destruct (dbm_open fs1 CDT_FILE_BASE _ 420) as [fs2 cdt].
  cbn [snd] in Hcdt.
  destruct cdc as [cdc|]; [|discriminate].
  destruct cdt as [cdt|]; [|discriminate].
  intros E. injection E as <-. cbn.
  repeat split; try discriminate; auto.
Qed.

Lemma add_cdc_entry_keeps_wf (r : cdc_entry) (st st' : state) (result : Z) :
  cdc_wf st -> length r = sizeof_cdc_entry ->
  add_cdc_entry r st = Done (result, st') ->
  cdc_wf st'.
Proof.
  unfold cdc_wf. intros (Hnd & Hsized & Hkeyed) Hsize Hadd.
  destruct (add_cdc_entry_effect _ _ _ _ Hadd)
    as [[_ ->]|(_ & _ & Hlt & _ & _ & ->)]; [auto|].
  rewrite <- Hsize, firstn_all.
  split; [apply NoDup_keys_replace; exact Hnd|]. split.
  - apply Forall_replace; [exact Hsize|exact Hsized].
  - apply Forall_replace; [split; [reflexivity|exact Hlt]|exact Hkeyed].
Qed.

(** X15: every store built from a new database by the access functions is
    open, its catalog table has distinct keys, contents of the size of a
    catalog record, and every record sits under the key of its own catalog
    string, which is below the bound. *)
Theorem built_stores_are_well_formed (st : state) :
  built st -> is_open st /\ cdc_wf st.
Proof.
  induction 1 as [nd st st' Hnd Hinit
                 |r st st' result _ IH Hsize Hadd
                 |r st st' result _ IH Hadd
                 |p st st' result _ IH Hdel
                 |p d st st' result _ IH Hdel
                 |fuel p f f' st st' entry _ IH Hsearch].
  - destruct (new_database_tables _ _ _ Hnd Hinit) as (Hopen & Hc & _).
    split; [exact Hopen|]. unfold cdc_wf. rewrite Hc.
    repeat split; constructor.
  - destruct IH as (Hopen & Hwf). split.
    + destruct (add_cdc_entry_effect _ _ _ _ Hadd)
        as [[_ ->]|(_ & _ & _ & Hcdt & Hcdc & _)]; [exact Hopen|].
      split; [exact Hcdc|rewrite Hcdt; apply Hopen].
    + apply (add_cdc_entry_keeps_wf r st st' result Hwf Hsize Hadd).
  - destruct (add_cdt_entry_effect _ _ _ _ Hadd) as (Hcdc & Hcdt & _).
    unfold is_open, cdc_wf, cdc_table in *. rewrite Hcdc. intuition.
  - destruct IH as (Hopen & Hnd & Hsized & Hkeyed).
    destruct (del_cdc_entry_effect _ _ _ _ Hdel) as (Hcdt & Hcdc & Heff).
    split; [unfold is_open in *; rewrite Hcdt; intuition|].
    unfold cdc_wf.
    destruct Heff as [[_ ->]|(_ & m & _ & _ & _ & ->)]; [auto|].
    split; [apply NoDup_keys_remove; exact Hnd|].
    split; apply Forall_remove; assumption.
  - destruct (del_cdt_entry_effect _ _ _ _ _ Hdel) as (Hcdc & Hcdt & _).
    unfold is_open, cdc_wf, cdc_table in *. rewrite Hcdc. intuition.
  - destruct IH as (Hopen & Hwf).
    destruct (search_cdc_entry_effect _ _ _ _ _ _ _ Hsearch)
      as (Hcdt & Hcdc & Htab).
    split; [unfold is_open in *; rewrite Hcdt; intuition|].
    unfold cdc_wf. rewrite Htab. exact Hwf.
Qed.

Lemma lookup_some_in (k v : list char) (t : table) :
  lookup k t = Some v -> In (k, v) t.
Proof.
  induction t as [|[k' v'] t IH]; simpl; [discriminate|].
  destruct (key_eqb k' k) eqn:E.
  - apply key_eqb_eq in E. intros H. injection H as ->. subst. auto.
  - auto.
Qed.

Lemma in_lookup_nodup (k v : list char) (t : table) :
  NoDup (map fst t) -> In (k, v) t -> lookup k t = Some v.
Proof.
  induction t as [|[k' v'] t IH]; simpl; [tauto|].
  intros Hnd [E|Hin].
  - injection E as -> ->. rewrite key_eqb_refl. reflexivity.
  - inversion Hnd as [|? ? Hnot Hnd']; subst.
    destruct (key_eqb k' k) eqn:E; [|auto].
    apply key_eqb_eq in E. subst k'. exfalso. apply Hnot.
    apply (in_map fst _ _ Hin).
Qed.

(** The entry the loop ends with is the one it started with, the empty one,
    or the contents of a pair of the table. *)
Lemma search_loop_entry (fuel : nat) (cdc cdc' : DBM) (s : list char)
  (key key' data : datum) (entry entry' : cdc_entry) :
  cdc_sized (dbm_table cdc) -> length entry = sizeof_cdc_entry ->
  search_loop fuel cdc s key data entry = Done (cdc', key', entry') ->
  entry' = entry \/ entry' = memset_zero sizeof_cdc_entry \/
  exists k, lookup k (dbm_table cdc) = Some entry'.
Proof.
  revert cdc key data entry.
  induction fuel as [|fuel IH]; intros cdc key data entry Hsized Hlen;
    [discriminate|].
  cbn [search_loop].
  destruct key as [k|]; cbn [bind];
    [|intros E; injection E as _ _ <-; auto].
  cbn [dbm_fetch].
  destruct (lookup k (dbm_table cdc)) as [v|] eqn:Hl; cbn [bind];
    [|intros E; injection E as _ _ <-; auto].
  assert (Hv : length v = sizeof_cdc_entry).
  { unfold cdc_sized in Hsized. rewrite Forall_forall in Hsized.
    apply (Hsized _ (lookup_some_in _ _ _ Hl)). }
  rewrite memcpy_whole by congruence. cbn [bind].
  destruct (strstr (catalog v) s); cbn [bind].
  - destruct (is_nul (nth 0 (catalog v) NUL)).
    + intros E. apply IH in E; [|assumption|assumption].
      destruct E as [->|[->|Hk]]; eauto.
    + intros E; injection E as _ _ <-. eauto.
  - unfold dbm_nextkey. cbn [bind].
    destruct (match dbm_memory cdc with
              | Some k0 => next_after k0 (dbm_table cdc)
              | None => None
              end) as [k'|].
    + destruct (is_nul (nth 0 (catalog (memset_zero sizeof_cdc_entry)) NUL)).
      * intros E. apply IH in E;
          [|exact Hsized|apply length_memset_zero].
        destruct E as [->|[->|Hk]]; auto.
      * intros E; injection E as _ _ <-; auto.
    + intros E; injection E as _ _ <-; auto.
Qed.

Lemma search_cdc_entry_entry (fuel : nat) (p : cptr) (f f' : option Z)
  (st st' : state) (entry : cdc_entry) :
  cdc_sized (cdc_table st) ->
  search_cdc_entry fuel p f st = Done (entry, f', st') ->
  entry = memset_zero sizeof_cdc_entry \/
  (is_open st /\ exists k, lookup k (cdc_table st) = Some entry).
Proof.
  unfold search_cdc_entry, cdc_table, is_open.
  destruct (cdc_dbm_ptr st) as [cdc|] eqn:Hc;
    [|intros _ E; injection E as <- _ _; auto].
  destruct (cdt_dbm_ptr st) as [cdt|] eqn:Ht;
    [|intros _ E; injection E as <- _ _; auto].
  destruct p as [m|]; [|intros _ E; injection E as <- _ _; auto].
  destruct f as [v|]; [|intros _ E; injection E as <- _ _; auto].
  cbn [strlen bind].
  destruct (Nat.leb_spec CAT_CAT_LEN (length (c_str m))) as [Hge|Hlt];
    [intros _ E; injection E as <- _ _; auto|].
  intros Hsized.
  destruct (if (local_first_call st =? 0)%Z
            then (local_first_call st, v) else (0%Z, 1%Z)) as [lfc fc].
  assert (Hstep : forall kd : datum * DBM,
             (kd = dbm_nextkey cdc \/ kd = dbm_firstkey cdc) ->
             dbm_table (snd kd) = dbm_table cdc)
    by (intros kd [-> | ->]; reflexivity).
  assert (Hfin : forall key db,
    dbm_table db = dbm_table cdc ->
    (r <- search_loop fuel db m key None (memset_zero sizeof_cdc_entry) ;;
     let '(cdc0, local_key_datum, entry_to_return) := r in
     Done (entry_to_return, Some (if (fc =? 0)%Z then fc else 0%Z),
           {| cdc_dbm_ptr := Some cdc0; cdt_dbm_ptr := Some cdt;
              local_first_call := lfc; local_key_datum := local_key_datum;
              disk := disk st; stderr := stderr st |}))
    = Done (entry, f', st') ->
    entry = memset_zero sizeof_cdc_entry \/
    (Some cdc <> None /\ Some cdt <> None) /\
    exists k, lookup k (dbm_table cdc) = Some entry).
  { intros key db Hdb.
    destruct (search_loop fuel db m key None _) as [[[db' key'] e]| |] eqn:Hl;
      cbn [bind]; [|discriminate|discriminate].
    apply search_loop_entry in Hl;
      [|rewrite Hdb; exact Hsized|apply length_memset_zero].
    intros E; injection E as <- _ _. rewrite Hdb in Hl.
    destruct Hl as [->|[->|Hk]]; auto.
    right. split; [split; discriminate|exact Hk]. }
  destruct (fc =? 0)%Z.
  - specialize (Hstep (dbm_nextkey cdc) (or_introl eq_refl)).
    destruct (dbm_nextkey cdc) as [key db]. apply (Hfin key db Hstep).
  - specialize (Hstep (dbm_firstkey cdc) (or_intror eq_refl)).
    destruct (dbm_firstkey cdc) as [key db]. apply (Hfin key db Hstep).
Qed.

(** X16: on a store whose catalog table is as the access functions build
    it, an entry that [search_cdc_entry] returns and that is not the empty
    entry is the entry [get_cdc_entry] returns for its catalog string. *)
Theorem search_result_can_be_fetched (fuel : nat) (p : cptr) (f f' : option Z)
  (st st' : state) (entry : cdc_entry) :
  cdc_wf st ->
  search_cdc_entry fuel p f st = Done (entry, f', st') ->
  is_nul (nth 0 (catalog entry) NUL) = false ->
  get_cdc_entry (Some (catalog entry)) st' = Done entry.
Proof.
  intros (Hnd & Hsized & Hkeyed) Hsearch Hhead.
  destruct (search_cdc_entry_entry _ _ _ _ _ _ _ Hsized Hsearch)
    as [->|(Hopen & k & Hk)];
    [rewrite zeros_catalog_head in Hhead; discriminate|].
  destruct (search_cdc_entry_effect _ _ _ _ _ _ _ Hsearch)
    as (Hcdt & Hcdc & Htab).
  assert (Hopen' : is_open st')
    by (unfold is_open in *; rewrite Hcdt; intuition).
  pose proof (lookup_some_in _ _ _ Hk) as Hin.
  unfold cdc_keyed, cdc_sized in *. rewrite Forall_forall in Hkeyed, Hsized.
  destruct (Hkeyed _ Hin) as [Hkey Hlt]. cbn [fst snd] in Hkey, Hlt.
  pose proof (Hsized _ Hin) as Hsize. cbn [snd] in Hsize.
  rewrite (get_cdc_entry_table _ _ Hopen' Hlt), Htab, <- Hkey, Hk.
  apply memcpy_whole. rewrite length_memset_zero. exact Hsize.
Qed.

(** X17: on a store whose catalog table is as the access functions build
    it, a record that [add_cdc_entry] reports stored is among the entries a
    scan returns for every search string that is not empty and occurs in
    its catalog string. *)
Theorem added_record_is_found (fuel : nat) (s : list char) (v : Z)
  (r : cdc_entry) (st st1 : state) :
  cdc_wf st ->
  length r = sizeof_cdc_entry ->
  add_cdc_entry r st = Done (1%Z, st1) ->
  c_str s <> [] ->
  occurs_in (c_str s) (c_str (catalog r)) ->
  length (cdc_table st1) < fuel ->
  v <> 0%Z ->
  exists found st2,
    search_calls (length found + 1) fuel (Some s) (Some v) st1
    = Done (found ++ [memset_zero sizeof_cdc_entry], Some 0%Z, st2) /\
    In r found.
Proof.
  intros Hwf Hsize Hadd Hs Hocc Hfuel Hv.
  destruct (add_cdc_entry_keeps_wf r st st1 1%Z Hwf Hsize Hadd)
    as (Hnd & Hsized & _).
  destruct (add_cdc_entry_effect _ _ _ _ Hadd)
    as [[E _]|(_ & Hopen0 & Hlt & Hcdt & Hcdc & Htab)]; [discriminate|].
  assert (Hopen : is_open st1)
    by (split; [exact Hcdc|rewrite Hcdt; apply Hopen0]).
  destruct (is_open_inv st1 Hopen) as (db & cdt & Hc & Ht).
  unfold cdc_table in *. rewrite Hc in *.
  assert (Hlen : length (c_str s) < CAT_CAT_LEN).
  { destruct Hocc as (pre & post & E). rewrite E in Hlt.
    rewrite !length_app in Hlt. lia. }
  destruct (scan_complete fuel s v st1 db cdt Hc Ht Hlen Hs Hnd Hsized Hfuel Hv)
    as [st2 Hscan].
  exists (matching s (dbm_table db)), st2. split; [exact Hscan|].
  unfold matching. apply filter_In. split.
  - rewrite Htab, <- Hsize, firstn_all.
    apply (in_map snd _ (cdc_key (catalog r), r)). apply in_replace.
  - apply contains_spec. exact Hocc.
Qed.

(** ** Opening again *)

Lemma fs_lookup_remove_other (name name' : string)
  (l : list (string * table)) :
  String.eqb name' name = false ->
  fs_lookup name (fs_remove name' l) = fs_lookup name l.
Proof.
  intros Hne. induction l as [|[n f] l IH]; simpl; [reflexivity|].
  destruct (String.eqb n name') eqn:E; simpl.
  - apply String.eqb_eq in E. subst n. rewrite Hne. exact IH.
  - destruct (String.eqb n name); [reflexivity|exact IH].
Qed.

Lemma fs_lookup_write (name name' : string) (f : table)
  (l : list (string * table)) :
  fs_lookup name (fs_write name' f l)
  = if String.eqb name' name then Some f else fs_lookup name l.
Proof.
  unfold fs_write. simpl. destruct (String.eqb name' name) eqn:E;
    [reflexivity|]. apply fs_lookup_remove_other. exact E.
Qed.

Lemma dbm_open_present (fs : filesystem) (file : string) (flags mode : Z)
  (t i : table) :
  ~ In file (fs_denied fs) ->
  fs_lookup (pag_of file) (fs_files fs) = Some t ->
  fs_lookup (dir_of file) (fs_files fs) = Some i ->
  dbm_open fs file flags mode
  = (fs, Some {| dbm_file := file; dbm_table := t; dbm_memory := None |}).
Proof.
  intros Hden Hp Hd. unfold dbm_open. rewrite Hp, Hd.
  destruct (existsb (String.eqb file) (fs_denied fs)) eqn:E; [|reflexivity].
  apply existsb_exists in E. destruct E as (x & Hin & Hx).
  apply String.eqb_eq in Hx. subst x. contradiction.
Qed.

(** X18: [database_initialize] called with 0 on an open store whose handles
    are those of the two database files, neither of which is barred from
    being opened, closes and opens them again: it returns 1, both tables
    hold the pairs they held before, and the cursor of the catalog table is
    back at no key. *)
Theorem reopen_keeps_contents (st : state) (cdc cdt : DBM) :
  cdc_dbm_ptr st = Some cdc -> cdt_dbm_ptr st = Some cdt ->
  dbm_file cdc = CDC_FILE_BASE -> dbm_file cdt = CDT_FILE_BASE ->
  ~ In CDC_FILE_BASE (fs_denied (disk st)) ->
  ~ In CDT_FILE_BASE (fs_denied (disk st)) ->
  exists st',
    database_initialize 0 st = (1%Z, st') /\
    cdc_table st' = dbm_table cdc /\
    cdt_table st' = dbm_table cdt /\
    (forall db, cdc_dbm_ptr st' = Some db -> dbm_memory db = None) /\
    local_first_call st' = local_first_call st.
Proof.
  intros Hc Ht Hfc Hft Hdc Hdt.
  unfold database_initialize. rewrite Hc, Ht. cbn [Z.eqb].
  set (fs := dbm_close cdt (dbm_close cdc (disk st))).
  assert (Hden : fs_denied fs = fs_denied (disk st)) by reflexivity.
  assert (Hcp : fs_lookup (pag_of CDC_FILE_BASE) (fs_files fs)
                = Some (dbm_table cdc)).
  { subst fs. unfold dbm_close. cbn [fs_files]. rewrite Hfc, Hft.
    rewrite !fs_lookup_write. reflexivity. }
  assert (Hcd : fs_lookup (dir_of CDC_FILE_BASE) (fs_files fs) = Some []).
  { subst fs. unfold dbm_close. cbn [fs_files]. rewrite Hfc, Hft.
    rewrite !fs_lookup_write. reflexivity. }
  assert (Htp : fs_lookup (pag_of CDT_FILE_BASE) (fs_files fs)
                = Some (dbm_table cdt)).
  { subst fs. unfold dbm_close. cbn [fs_files]. rewrite Hfc, Hft.
    rewrite !fs_lookup_write. reflexivity. }
  assert (Htd : fs_lookup (dir_of CDT_FILE_BASE) (fs_files fs) = Some []).
  { subst fs. unfold dbm_close. cbn [fs_files]. rewrite Hfc, Hft.
    rewrite !fs_lookup_write. reflexivity. }
  rewrite (dbm_open_present fs CDC_FILE_BASE _ 420 _ _
             ltac:(rewrite Hden; exact Hdc) Hcp Hcd).
  rewrite (dbm_open_present fs CDT_FILE_BASE _ 420 _ _
             ltac:(rewrite Hden; exact Hdt) Htp Htd).
  eexists. split; [reflexivity|]. cbn.
  repeat split. intros db E. injection E as <-. reflexivity.
Qed.

End CdAccessMore.

(** * Further instances on the sample layout *)

Lemma add_cdc_entry_overwrites_witness :
  @get_cdc_entry sample_layout (Some (@catalog sample_layout sample_r1))
    (sample_open [(sample_key "AAA1", sample_r1_again)] [])
  = Done sample_r1_again /\
  length (@cdc_table (sample_open [(sample_key "AAA1", sample_r1_again)] []))
  = length (@cdc_table (sample_open [(sample_key "AAA1", sample_r1)] [])).
Proof.
  apply (@add_cdc_entry_overwrites sample_layout sample_r1 sample_r1_again
           (sample_open [] [])).
  - reflexivity.
  - reflexivity.
  - vm_compute. reflexivity.
  - vm_compute. reflexivity.
Defined.

Lemma add_cdc_entry_other_keys_witness :
  @get_cdc_entry sample_layout (Some (bytes "BBB1"))
    (sample_open [(sample_key "AAA1", sample_r1)] [])
  = @get_cdc_entry sample_layout (Some (bytes "BBB1")) (sample_open [] []).
Proof.
  apply (@add_cdc_entry_other_keys sample_layout sample_r1 (bytes "BBB1")
           (sample_open [] []) _ 1%Z).
  - vm_compute. discriminate.
  - vm_compute. reflexivity.
Defined.

Lemma del_cdc_entry_other_keys_witness :
  @get_cdc_entry sample_layout (Some (bytes "BBB1"))
    (sample_open [(sample_key "BBB1", sample_r3);
                  (sample_key "AAA2", sample_r2)] [])
  = @get_cdc_entry sample_layout (Some (bytes "BBB1"))
      (sample_open sample_table []).
Proof.
  apply (@del_cdc_entry_other_keys sample_layout (Some (bytes "AAA1"))
           (bytes "BBB1") (sample_open sample_table []) _ 1%Z).
  - vm_compute. reflexivity.
  - right. intros k E. injection E as <-. vm_compute. discriminate.
Defined.

Lemma del_cdt_entry_then_get_witness :
  exists result st',
    @del_cdt_entry sample_layout (Some (bytes "AAA1")) 7
      (sample_open [] [(sample_track_key "AAA1 7", sample_track)])
    = Done (result, st') /\
    (result = 1%Z \/ result = 0%Z) /\
    (result = 1%Z <->
     lookup (@cdt_key sample_layout (bytes "AAA1") 7)
       (@cdt_table
          (sample_open [] [(sample_track_key "AAA1 7", sample_track)]))
     <> None) /\
    (result = 1%Z ->
     @get_cdt_entry sample_layout (Some (bytes "AAA1")) 7 st'
     = Done (memset_zero (@sizeof_cdt_entry sample_layout))).
Proof.
  apply (@del_cdt_entry_then_get sample_layout (bytes "AAA1") 7
           (sample_open [] [(sample_track_key "AAA1 7", sample_track)])).
  - split; discriminate.
  - vm_compute. lia.
  - vm_compute. lia.
Defined.

Lemma closed_store_guard_witness :
  @add_cdc_entry sample_layout sample_r1 (initial_state empty_fs)
  = Done (0%Z, initial_state empty_fs).
Proof.
  apply (@closed_store_guard sample_layout (initial_state empty_fs)).
  left. reflexivity.
Defined.


Lemma sample_table_keyed : @cdc_keyed sample_layout sample_table.
Proof.
  repeat constructor; try reflexivity; vm_compute; lia.
Qed.

Lemma scan_yields_exactly_matching_witness :
  exists found st',
    @search_calls sample_layout (length found + 1) 4 (Some (bytes "A"))
      (Some 1%Z) (sample_open sample_table [])
    = Done (found ++ [memset_zero (@sizeof_cdc_entry sample_layout)],
            Some 0%Z, st') /\
    found = [sample_r1; sample_r2].
Proof.
  destruct (@scan_yields_exactly_matching sample_layout 4 (bytes "A") 1%Z
              (sample_open sample_table [])
              {| dbm_file := "cdc_data"; dbm_table := sample_table;
                 dbm_memory := None |}
              {| dbm_file := "cdt_data"; dbm_table := [];
                 dbm_memory := None |})
    as (found & st' & Hcalls & Hfound & _).
  - reflexivity.
  - reflexivity.
  - vm_compute. lia.
  - discriminate.
  - repeat constructor; simpl; intuition discriminate.
  - repeat constructor.
  - exact sample_table_keyed.
  - simpl. lia.
  - discriminate.
  - exists found, st'. split; [exact Hcalls|]. rewrite Hfound. reflexivity.
Defined.

Lemma flag_restarts_scan_witness :
  exists st',
    @search_cdc_entry sample_layout 4 (Some (bytes "BBB")) (Some 1%Z)
      sample_used
    = Done (sample_r3, Some 0%Z, st') /\
    @cdc_table st' = sample_table.
Proof.
  apply (@flag_restarts_scan sample_layout 4 (bytes "BBB") 1%Z sample_used
           {| dbm_file := "cdc_data"; dbm_table := sample_table;
              dbm_memory := None |}
           {| dbm_file := "cdt_data";
              dbm_table := [(sample_track_key "AAA1 7", sample_track)];
              dbm_memory := None |}).
  - reflexivity.
  - reflexivity.
  - vm_compute. lia.
  - discriminate.
  - repeat constructor; simpl; intuition discriminate.
  - repeat constructor.
  - exact sample_table_keyed.
  - simpl. lia.
  - discriminate.
Defined.

Lemma exhausted_scan_stays_empty_witness :
  exists st',
    @search_calls sample_layout 3 4 (Some (bytes "AAA")) (Some 0%Z)
      sample_used
    = Done (repeat (memset_zero (@sizeof_cdc_entry sample_layout)) 3,
            Some 0%Z, st').
Proof.
  apply (@exhausted_scan_stays_empty sample_layout 4 (bytes "AAA")
           {| dbm_file := "cdt_data";
              dbm_table := [(sample_track_key "AAA1 7", sample_track)];
              dbm_memory := None |}
           sample_table)
    with (db := {| dbm_file := "cdc_data"; dbm_table := sample_table;
                   dbm_memory := None |}).
  - vm_compute. lia.
  - discriminate.
  - repeat constructor; simpl; intuition discriminate.
  - repeat constructor.
  - exact sample_table_keyed.
  - simpl. lia.
  - reflexivity.
  - reflexivity.
  - reflexivity.
  - reflexivity.
  - reflexivity.
Defined.

Lemma empty_search_string_never_returns_witness :
  @search_cdc_entry sample_layout 1000 (Some []) (Some 1%Z)
    (sample_open [(sample_key "", sample_unnamed)] [])
  = OutOfFuel.
Proof.
  apply (@empty_search_string_never_returns sample_layout [] 1%Z
           (sample_open [(sample_key "", sample_unnamed)] [])
           {| dbm_file := "cdc_data";
              dbm_table := [(sample_key "", sample_unnamed)];
              dbm_memory := None |}
           {| dbm_file := "cdt_data"; dbm_table := [];
              dbm_memory := None |}
           (sample_key "") sample_unnamed []).
  - reflexivity.
  - reflexivity.
  - vm_compute. lia.
  - reflexivity.
  - reflexivity.
  - reflexivity.
  - reflexivity.
  - left. discriminate.
Defined.

Lemma sample_one_built : @built sample_layout sample_one.
Proof.
  apply (@built_add_cdc sample_layout sample_r1 sample_new sample_one 1%Z).
  - apply (@built_new sample_layout 1%Z sample_used sample_new).
    + discriminate.
    + reflexivity.
  - reflexivity.
  - vm_compute. reflexivity.
Defined.

Lemma built_stores_are_well_formed_witness :
  is_open sample_one /\ @cdc_wf sample_layout sample_one.
Proof.
  apply (@built_stores_are_well_formed sample_layout sample_one).
  exact sample_one_built.
Defined.

Lemma sample_new_wf : @cdc_wf sample_layout sample_new.
Proof. repeat split; constructor. Qed.

Lemma sample_one_wf : @cdc_wf sample_layout sample_one.
Proof.
  apply (@add_cdc_entry_keeps_wf sample_layout sample_r1 sample_new
           sample_one 1%Z).
  - exact sample_new_wf.
  - reflexivity.
  - vm_compute. reflexivity.
Qed.

Lemma search_result_can_be_fetched_witness :
  exists st',
    @search_cdc_entry sample_layout 4 (Some (bytes "AA")) (Some 1%Z)
      sample_one = Done (sample_r1, Some 0%Z, st') /\
    @get_cdc_entry sample_layout (Some (@catalog sample_layout sample_r1)) st'
    = Done sample_r1.
Proof.
  eexists. split.
  - vm_compute. reflexivity.
  - eapply (@search_result_can_be_fetched sample_layout 4
              (Some (bytes "AA")) (Some 1%Z) (Some 0%Z) sample_one).
    + exact sample_one_wf.
    + vm_compute. reflexivity.
    + reflexivity.
Defined.

Lemma added_record_is_found_witness :
  exists found st2,
    @search_calls sample_layout (length found + 1) 4 (Some (bytes "AA"))
      (Some 1%Z) sample_one
    = Done (found ++ [memset_zero (@sizeof_cdc_entry sample_layout)],
            Some 0%Z, st2) /\
    In sample_r1 found.
Proof.
  apply (@added_record_is_found sample_layout 4 (bytes "AA") 1%Z sample_r1
           sample_new sample_one).
  - exact sample_new_wf.
  - reflexivity.
  - vm_compute. reflexivity.
  - discriminate.
  - exists [], (bytes "A1"). reflexivity.
  - vm_compute. lia.
  - discriminate.
Defined.

Lemma reopen_keeps_contents_witness :
  exists st',
    database_initialize 0 sample_used = (1%Z, st') /\
    cdc_table st' = sample_table /\
    cdt_table st' = [(sample_track_key "AAA1 7", sample_track)] /\
    (forall db, cdc_dbm_ptr st' = Some db -> dbm_memory db = None) /\
    local_first_call st' = 0%Z.
Proof.
  apply (@reopen_keeps_contents sample_used
           {| dbm_file := "cdc_data"; dbm_table := sample_table;
              dbm_memory := None |}
           {| dbm_file := "cdt_data";
              dbm_table := [(sample_track_key "AAA1 7", sample_track)];
              dbm_memory := None |}).
  - reflexivity.
  - reflexivity.
  - reflexivity.
  - reflexivity.
  - simpl. tauto.
  - simpl. tauto.
Defined.
